(** * Endianess.h: byte swapping and network byte order

    A shallow embedding of [bsw/src/communication/Endianess.h] and the
    properties its specification states about it.

    Conventions of the embedding.
    - A value of an integer type is the mathematical integer it denotes
      ([Z]): [0 .. 2^w - 1] for an unsigned type of [w] bits and
      [-2^(w-1) .. 2^(w-1) - 1] for a signed one.
    - [int] has 32 bits (the header only builds for [__unix__] and
      [_WIN32]); [uint16]/[sint16] operands are promoted to [int] before a
      shift, wider operands are shifted in their own type.
    - Signed arithmetic is two's complement: [>>] on a signed operand is
      the arithmetic shift ([Z.shiftr], which rounds down), [<<] and every
      narrowing conversion keep the value modulo [2^w] (the rules C++20
      fixed, and what the supported compilers did before).  Each such wrap
      is written out with [to_unsigned] and [to_signed].
    - [&] and [|] are [Z.land] and [Z.lor]; on negative numbers these are
      the operations on the infinite two's complement expansion, which is
      what a conversion to a wider type followed by the machine operation
      computes.
    - A floating point object is its storage: the list of its bytes in
      address order, which is what the [float32]/[float64] specializations
      read and write.  Passing a floating point value from one object to
      another (the copy into [temp], the return by value) is done by the
      floating point unit of the build, [float_move]: it keeps the bytes,
      or, through the x87 registers, turns a signalling NaN into a quiet
      one.  The x87 is the unit of little endian hosts only, where
      [to_network] and [from_network] hand on what [swap_bytes] returned,
      a value already passed, which a further pass leaves as it is. *)

From Stdlib Require Import ZArith Lia Bool List.
From Stdlib Require Strings.Byte.
From stdpp Require Import base list.
Import ListNotations.

Local Open Scope Z_scope.

(** ** Fixed width integers *)

Module Int.

(** Conversion to an unsigned type of [w] bits. *)
Definition to_unsigned (w x : Z) : Z := x mod 2 ^ w.

(** Conversion to a signed type of [w] bits. *)
Definition to_signed (w x : Z) : Z := (x + 2 ^ (w - 1)) mod 2 ^ w - 2 ^ (w - 1).

Definition unsigned_range (w x : Z) : Prop := 0 <= x < 2 ^ w.
Definition signed_range (w x : Z) : Prop := - 2 ^ (w - 1) <= x < 2 ^ (w - 1).

#[global] Instance unsigned_range_dec w x : Decision (unsigned_range w x).
Proof. unfold unsigned_range. apply _. Defined.

#[global] Instance signed_range_dec w x : Decision (signed_range w x).
Proof. unfold signed_range. apply _. Defined.

Definition to_uint16 := to_unsigned 16.
Definition to_uint32 := to_unsigned 32.
Definition to_uint64 := to_unsigned 64.
Definition to_sint16 := to_signed 16.
Definition to_sint32 := to_signed 32.
Definition to_sint64 := to_signed 64.

(** [int] is [sint32]: the type shifts of promoted operands are done in. *)
Definition to_int := to_signed 32.

End Int.
Import Int.

(** ** The specializations of [swap_bytes] for integers *)

(** [swap_bytes< uint8, 1 >] *)
Definition swap_bytes_uint8 (val : Z) : Z := val.

(** [swap_bytes< uint16, 2 >] *)
Definition swap_bytes_uint16 (val : Z) : Z :=
  let temp := 0 in
  let temp := to_uint16 (Z.land (Z.shiftr val 8) 0x00FF) in
  let temp := to_uint16 (Z.lor temp (Z.land (to_int (Z.shiftl val 8)) 0xFFFF)) in
  temp.

(** [swap_bytes< sint16, 2 >] *)
Definition swap_bytes_sint16 (val : Z) : Z :=
  let temp := 0 in
  let temp := to_sint16 (Z.land (Z.shiftr val 8) 0x00FF) in
  let temp := to_sint16 (Z.lor temp (Z.land (to_int (Z.shiftl val 8)) 0xFFFF)) in
  temp.

(** [swap_bytes< uint32, 4 >] *)
Definition swap_bytes_uint32 (val : Z) : Z :=
  let temp := 0 in
  let temp := to_uint32 (Z.land (Z.shiftr val 24) 0x000000FF) in
  let temp := to_uint32 (Z.lor temp (Z.land (to_uint32 (Z.shiftl val 24)) 0xFF000000)) in
  let temp := to_uint32 (Z.lor temp (Z.land (Z.shiftr val 8) 0x0000FF00)) in
  let temp := to_uint32 (Z.lor temp (Z.land (to_uint32 (Z.shiftl val 8)) 0x00FF0000)) in
  temp.

(** [swap_bytes< sint32, 4 >]: the masks are [long].  Where [long] is
    wider than [sint32] the operands of [&] and [|] are widened with their
    sign, which keeps their value; where it is not, [0xFF000000L] is an
    [unsigned long] and the operands are taken modulo [2^32].  Both give
    the same [sint32] after the conversion on assignment; the first
    reading is written here. *)
Definition swap_bytes_sint32 (val : Z) : Z :=
  let temp := 0 in
  let temp := to_sint32 (Z.land (Z.shiftr val 24) 0x000000FF) in
  let temp := to_sint32 (Z.lor temp (Z.land (to_sint32 (Z.shiftl val 24)) 0xFF000000)) in
  let temp := to_sint32 (Z.lor temp (Z.land (Z.shiftr val 8) 0x0000FF00)) in
  let temp := to_sint32 (Z.lor temp (Z.land (to_sint32 (Z.shiftl val 8)) 0x00FF0000)) in
  temp.

(** [swap_bytes< uint64, 8 >] *)
Definition swap_bytes_uint64 (val : Z) : Z :=
  let temp := 0 in
  let temp := to_uint64 (Z.land (Z.shiftr val 56) 0x00000000000000FF) in
  let temp := to_uint64 (Z.lor temp (Z.land (to_uint64 (Z.shiftl val 56)) 0xFF00000000000000)) in
  let temp := to_uint64 (Z.lor temp (Z.land (Z.shiftr val 40) 0x000000000000FF00)) in
  let temp := to_uint64 (Z.lor temp (Z.land (to_uint64 (Z.shiftl val 40)) 0x00FF000000000000)) in
  let temp := to_uint64 (Z.lor temp (Z.land (Z.shiftr val 24) 0x0000000000FF0000)) in
  let temp := to_uint64 (Z.lor temp (Z.land (to_uint64 (Z.shiftl val 24)) 0x0000FF0000000000)) in
  let temp := to_uint64 (Z.lor temp (Z.land (Z.shiftr val 8) 0x00000000FF000000)) in
  let temp := to_uint64 (Z.lor temp (Z.land (to_uint64 (Z.shiftl val 8)) 0x000000FF00000000)) in
  temp.

(** [swap_bytes< sint64, 8 >]: the masks are [unsigned long long], so each
    shifted [sint64] is converted to [uint64] before [&], [temp] is
    converted to [uint64] before [|], and the result goes back to
    [sint64] on assignment. *)
Definition swap_bytes_sint64 (val : Z) : Z :=
  let temp := 0 in
  let temp := to_sint64 (Z.land (to_uint64 (Z.shiftr val 56)) 0x00000000000000FF) in
  let temp := to_sint64 (Z.lor (to_uint64 temp)
                (Z.land (to_uint64 (to_sint64 (Z.shiftl val 56))) 0xFF00000000000000)) in
  let temp := to_sint64 (Z.lor (to_uint64 temp)
                (Z.land (to_uint64 (Z.shiftr val 40)) 0x000000000000FF00)) in
  let temp := to_sint64 (Z.lor (to_uint64 temp)
                (Z.land (to_uint64 (to_sint64 (Z.shiftl val 40))) 0x00FF000000000000)) in
  let temp := to_sint64 (Z.lor (to_uint64 temp)
                (Z.land (to_uint64 (Z.shiftr val 24)) 0x0000000000FF0000)) in
  let temp := to_sint64 (Z.lor (to_uint64 temp)
                (Z.land (to_uint64 (to_sint64 (Z.shiftl val 24))) 0x0000FF0000000000)) in
  let temp := to_sint64 (Z.lor (to_uint64 temp)
                (Z.land (to_uint64 (Z.shiftr val 8)) 0x00000000FF000000)) in
  let temp := to_sint64 (Z.lor (to_uint64 temp)
                (Z.land (to_uint64 (to_sint64 (Z.shiftl val 8))) 0x000000FF00000000)) in
  temp.

(** ** The supported types *)

(** The types the template is specialized for. *)
Inductive ctype : Set :=
  | uint8 | uint16 | sint16 | uint32 | sint32 | uint64 | sint64
  | float32 | float64.

Definition sizeof (T : ctype) : Z :=
  match T with
  | uint8 => 1
  | uint16 | sint16 => 2
  | uint32 | sint32 | float32 => 4
  | uint64 | sint64 | float64 => 8
  end.

(** What a value of type [T] is in the embedding. *)
Definition repr (T : ctype) : Type :=
  match T with
  | float32 | float64 => list Byte.byte
  | _ => Z
  end.

(** The values of type [T]. *)
Definition valid (T : ctype) : repr T -> Prop :=
  match T return repr T -> Prop with
  | uint8 => unsigned_range 8
  | uint16 => unsigned_range 16
  | sint16 => signed_range 16
  | uint32 => unsigned_range 32
  | sint32 => signed_range 32
  | uint64 => unsigned_range 64
  | sint64 => signed_range 64
  | float32 => fun f => length f = 4%nat
  | float64 => fun f => length f = 8%nat
  end.

#[global] Instance valid_dec T (x : repr T) : Decision (valid T x).
Proof. destruct T; cbn [valid]; apply _. Defined.

(** ** Bytes of an integer *)

(** The byte at position [i], counted from the least significant end.  On
    a negative number this is a byte of its two's complement pattern. *)
Definition byte_at (x i : Z) : Z := Z.land (Z.shiftr x (8 * i)) 0xFF.

(** The byte positions of a [w]-byte pattern: [0], ..., [w - 1]. *)
Definition positions (w : Z) : list Z := map Z.of_nat (seq 0 (Z.to_nat w)).

(** The reference byte reversal of a [w]-byte pattern, in the words of the
    specification: the byte at position [i] goes to position [w - 1 - i]. *)
Definition byte_reverse (w x : Z) : Z :=
  fold_right Z.lor 0
    (map (fun i => Z.shiftl (byte_at x i) (8 * (w - 1 - i))) (positions w)).

(** Bit [n] of a reversed [w]-byte pattern comes from bit [mirror w n]. *)
Definition mirror (w n : Z) : Z := n + 8 * (w - 1) - 16 * (n / 8).

(** [y] is the [w]-byte pattern of [x] with its bytes reversed. *)
Definition reverses (w y x : Z) : Prop :=
  forall n, 0 <= n ->
    Z.testbit y n = (n <? 8 * w) && Z.testbit x (mirror w n).

(** An unsigned specialization [f] for [w] bytes, [bits] bits, and its
    signed sibling [g]: [f] reverses the bytes, and [g] yields the same
    bits read as a signed number. *)
Definition swap_pair (w bits : Z) (f g : Z -> Z) : Prop :=
  0 < w /\
  bits = 8 * w /\
  (forall x, reverses w (f x) x) /\
  (forall x, g x = to_signed bits (f x)).

(** What the specification asks of a multi-byte integer specialization
    [swap] on the values [range] of its type, where [of_pattern] reads a
    bit pattern as a value of the type. *)
Definition is_byte_reversal
    (w : Z) (range : Z -> Prop) (of_pattern swap : Z -> Z) : Prop :=
  forall x, range x ->
    range (swap x) /\
    swap x = of_pattern (byte_reverse w x) /\
    forall i, 0 <= i < w -> byte_at (swap x) (w - 1 - i) = byte_at x i.

(** ** Stored bytes read as a number *)

(** The number a byte stands for, [0 .. 255]. *)
Definition byte_value (b : Byte.byte) : Z := Z.of_N (Strings.Byte.to_N b).

(** What a little endian host reads from the storage [s]: the byte at the
    lowest address is the least significant one. *)
Fixpoint le_value (s : list Byte.byte) : Z :=
  match s with
  | [] => 0
  | b :: s' => byte_value b + 256 * le_value s'
  end.

(** What a big endian host reads from the same storage. *)
Definition be_value (s : list Byte.byte) : Z := le_value (reverse s).

(** The bytes of a [w]-byte pattern read the same from both ends. *)
Definition palindrome (w x : Z) : Prop :=
  forall i, 0 <= i < w -> byte_at x i = byte_at x (w - 1 - i).

(** [f] commutes with the bitwise operations. *)
Definition bitwise_morphism (f : Z -> Z) : Prop :=
  forall x y,
    f (Z.lor x y) = Z.lor (f x) (f y) /\
    f (Z.land x y) = Z.land (f x) (f y) /\
    f (Z.lxor x y) = Z.lxor (f x) (f y).

(** ** Passing a floating point value *)

#[global] Instance byte_inhabited : Inhabited Byte.byte := populate Byte.x00.

(** The byte with value [z], for [0 <= z < 256]. *)
Definition byte_of_Z (z : Z) : Byte.byte :=
  match Strings.Byte.of_N (Z.to_N z) with
  | Some b => b
  | None => Byte.x00
  end.

(** The [n] bytes a little endian host stores for the pattern [p]. *)
Definition le_bytes (n : nat) (p : Z) : list Byte.byte :=
  map (fun i : nat => byte_of_Z (byte_at p (Z.of_nat i))) (seq 0 n).

(** How a build passes a floating point value from one object to another:
    with moves that keep the bits, or through the x87 registers, by a load
    and a store. *)
Inductive float_unit : Set :=
  | bit_preserving
  | x87.

(** A signalling NaN of a format with [frac_bits] fraction bits and
    [exp_bits] exponent bits: the exponent is all ones, the top fraction
    bit is clear and the fraction is not zero. *)
Definition signalling_nan (frac_bits exp_bits p : Z) : bool :=
  (Z.land (Z.shiftr p frac_bits) (Z.ones exp_bits) =? Z.ones exp_bits)
  && negb (Z.testbit p (frac_bits - 1))
  && negb (Z.land p (Z.ones frac_bits) =? 0).

(** An x87 load and store of the storage [s]: a signalling NaN comes out
    as the quiet NaN with the same payload, that is with its top fraction
    bit set, and every other value as it went in.  The x87 is the unit of
    the x86, a little endian host, so the pattern of [s] is [le_value s]. *)
Definition x87_load_store
    (frac_bits exp_bits : Z) (s : list Byte.byte) : list Byte.byte :=
  if signalling_nan frac_bits exp_bits (le_value s)
  then le_bytes (length s) (Z.setbit (le_value s) (frac_bits - 1))
  else s.

(** Passing the value stored as [s]. *)
Definition float_move
    (fu : float_unit) (frac_bits exp_bits : Z) (s : list Byte.byte)
    : list Byte.byte :=
  match fu with
  | bit_preserving => s
  | x87 => x87_load_store frac_bits exp_bits s
  end.

(** Neither the storage nor its reversal is a signalling NaN (for the
    integer types there is nothing to ask). *)
Definition no_signalling_nan (T : ctype) : repr T -> Prop :=
  match T return repr T -> Prop with
  | float32 => fun f =>
      signalling_nan 23 8 (le_value f) = false /\
      signalling_nan 23 8 (be_value f) = false
  | float64 => fun f =>
      signalling_nan 52 11 (le_value f) = false /\
      signalling_nan 52 11 (be_value f) = false
  | _ => fun _ => True
  end.

(** ** The operations that have undefined cases *)

(** [x >> n] and [x << n] for an operand whose promoted type has [bits]
    bits are undefined unless [0 <= n < bits]; [p[i]] for [p] pointing at
    the first byte of an object is undefined unless [i] is inside the
    object.  [None] is the undefined case. *)
Definition checked_shr (bits x n : Z) : option Z :=
  if (0 <=? n) && (n <? bits) then Some (Z.shiftr x n) else None.

Definition checked_shl (bits x n : Z) : option Z :=
  if (0 <=? n) && (n <? bits) then Some (Z.shiftl x n) else None.

Definition checked_read (object : list Byte.byte) (i : nat) : option Byte.byte :=
  object !! i.

Definition checked_write (object : list Byte.byte) (i : nat) (b : Byte.byte)
    : option (list Byte.byte) :=
  if (i <? length object)%nat then Some (<[i := b]> object) else None.

(** * The code that depends on the build *)

Section Build.

(** The floating point unit of the build. *)
Variable fu : float_unit.

(** ** The specializations of [swap_bytes] for floating point values *)

(** [swap_bytes< float32, 4 >].  [temp] is a copy of the argument, a
    floating point value passed; [float_to_convert] and [to_convert] point
    at the first byte of [temp] and of [float_swapped], and the four
    assignments write [float_swapped] through [to_convert]; the object is
    then returned by value, passed once more.  [0.0F] is stored as zero
    bytes. *)
Definition swap_bytes_float32 (fval : list Byte.byte) : list Byte.byte :=
  let float_swapped := replicate 4 Byte.x00 in
  let temp := float_move fu 23 8 fval in
  let float_swapped := <[0%nat := temp !!! 3%nat]> float_swapped in
  let float_swapped := <[1%nat := temp !!! 2%nat]> float_swapped in
  let float_swapped := <[2%nat := temp !!! 1%nat]> float_swapped in
  let float_swapped := <[3%nat := temp !!! 0%nat]> float_swapped in
  float_move fu 23 8 float_swapped.

(** [swap_bytes< float64, 8 >] *)
Definition swap_bytes_float64 (fval : list Byte.byte) : list Byte.byte :=
  let float_swapped := replicate 8 Byte.x00 in
  let temp := float_move fu 52 11 fval in
  let float_swapped := <[0%nat := temp !!! 7%nat]> float_swapped in
  let float_swapped := <[1%nat := temp !!! 6%nat]> float_swapped in
  let float_swapped := <[2%nat := temp !!! 5%nat]> float_swapped in
  let float_swapped := <[3%nat := temp !!! 4%nat]> float_swapped in
  let float_swapped := <[4%nat := temp !!! 3%nat]> float_swapped in
  let float_swapped := <[5%nat := temp !!! 2%nat]> float_swapped in
  let float_swapped := <[6%nat := temp !!! 1%nat]> float_swapped in
  let float_swapped := <[7%nat := temp !!! 0%nat]> float_swapped in
  float_move fu 52 11 float_swapped.

(** ** The template [swap_bytes< T, Sz >] *)

(** [swap_bytes< T, sizeof(T) >]: the specialization the compiler selects.
    The template is declared for every [T] and [Sz] but defined for these
    nine pairs only. *)
Definition swap_bytes (T : ctype) : repr T -> repr T :=
  match T return repr T -> repr T with
  | uint8 => swap_bytes_uint8
  | uint16 => swap_bytes_uint16
  | sint16 => swap_bytes_sint16
  | uint32 => swap_bytes_uint32
  | sint32 => swap_bytes_sint32
  | uint64 => swap_bytes_uint64
  | sint64 => swap_bytes_sint64
  | float32 => swap_bytes_float32
  | float64 => swap_bytes_float64
  end.

(** The build passes the value [x] and its swap unchanged: its moves keep
    the bits, or no signalling NaN is involved. *)
Definition float_moves_keep (T : ctype) (x : repr T) : Prop :=
  fu = bit_preserving \/ no_signalling_nan T x.

(** ** Host byte order and the conversions *)

Section Network.

(** The value of the macro [LITTLE_ENDIAN], which the platform supplies
    (as it does [BIG_ENDIAN]), and below the value of [BYTE_ORDER] as the
    header resolves it. *)
Variable LITTLE_ENDIAN : Z.

(** Lines 46-52: where [BYTE_ORDER] comes from.  A third kind of platform
    stops the build with [#error]. *)
Inductive platform : Set :=
  | unix_host (endian_h_BYTE_ORDER : Z)
  | win32_host.

Definition BYTE_ORDER_of (p : platform) : Z :=
  match p with
  | unix_host bo => bo
  | win32_host => LITTLE_ENDIAN
  end.

Variable BYTE_ORDER : Z.

(** [to_network< T >] *)
Definition to_network (T : ctype) (value : repr T) : repr T :=
  let convert := value in
  let convert :=
    if BYTE_ORDER =? LITTLE_ENDIAN then swap_bytes T value else convert in
  convert.

(** [from_network< T >] *)
Definition from_network (T : ctype) (value : repr T) : repr T :=
  let convert := value in
  let convert :=
    if BYTE_ORDER =? LITTLE_ENDIAN then swap_bytes T value else convert in
  convert.

End Network.

(** Big endian on the wire, for a type [T] whose values are read off a
    bit pattern by [of_pattern]: whatever bytes [m] are on the wire, most
    significant first, [to_network] of the value they spell is the value
    the host stores as [m], and [from_network] of the value the host reads
    from [m] is the value they spell.  The first argument of each
    conversion is [LITTLE_ENDIAN], the second the host's [BYTE_ORDER]; a
    little endian host reads [le_value m] from [m], a big endian one
    [be_value m]. *)
Definition big_endian_wire
    (LITTLE_ENDIAN BIG_ENDIAN : Z) (T : ctype) (of_pattern : Z -> repr T) : Prop :=
  forall m : list Byte.byte, length m = Z.to_nat (sizeof T) ->
    to_network LITTLE_ENDIAN LITTLE_ENDIAN T (of_pattern (be_value m))
      = of_pattern (le_value m) /\
    to_network LITTLE_ENDIAN BIG_ENDIAN T (of_pattern (be_value m))
      = of_pattern (be_value m) /\
    from_network LITTLE_ENDIAN LITTLE_ENDIAN T (of_pattern (le_value m))
      = of_pattern (be_value m) /\
    from_network LITTLE_ENDIAN BIG_ENDIAN T (of_pattern (be_value m))
      = of_pattern (be_value m).

(** ** The operations, undefined cases included *)

(** The same functions written with the checked operations: each shift
    and each byte access of the source is a step that may be undefined. *)

Definition swap_bytes_uint8_checked (val : Z) : option Z := Some val.

Definition swap_bytes_uint16_checked (val : Z) : option Z :=
  let temp := 0 in
  hi ← checked_shr 32 val 8;
  let temp := to_uint16 (Z.land hi 0x00FF) in
  lo ← checked_shl 32 val 8;
  let temp := to_uint16 (Z.lor temp (Z.land (to_int lo) 0xFFFF)) in
  Some temp.

Definition swap_bytes_sint16_checked (val : Z) : option Z :=
  let temp := 0 in
  hi ← checked_shr 32 val 8;
  let temp := to_sint16 (Z.land hi 0x00FF) in
  lo ← checked_shl 32 val 8;
  let temp := to_sint16 (Z.lor temp (Z.land (to_int lo) 0xFFFF)) in
  Some temp.

Definition swap_bytes_uint32_checked (val : Z) : option Z :=
  let temp := 0 in
  a ← checked_shr 32 val 24;
  let temp := to_uint32 (Z.land a 0x000000FF) in
  b ← checked_shl 32 val 24;
  let temp := to_uint32 (Z.lor temp (Z.land (to_uint32 b) 0xFF000000)) in
  c ← checked_shr 32 val 8;
  let temp := to_uint32 (Z.lor temp (Z.land c 0x0000FF00)) in
  d ← checked_shl 32 val 8;
  let temp := to_uint32 (Z.lor temp (Z.land (to_uint32 d) 0x00FF0000)) in
  Some temp.

Definition swap_bytes_sint32_checked (val : Z) : option Z :=
  let temp := 0 in
  a ← checked_shr 32 val 24;
  let temp := to_sint32 (Z.land a 0x000000FF) in
  b ← checked_shl 32 val 24;
  let temp := to_sint32 (Z.lor temp (Z.land (to_sint32 b) 0xFF000000)) in
  c ← checked_shr 32 val 8;
  let temp := to_sint32 (Z.lor temp (Z.land c 0x0000FF00)) in
  d ← checked_shl 32 val 8;
  let temp := to_sint32 (Z.lor temp (Z.land (to_sint32 d) 0x00FF0000)) in
  Some temp.

Definition swap_bytes_uint64_checked (val : Z) : option Z :=
  let temp := 0 in
  a ← checked_shr 64 val 56;
  let temp := to_uint64 (Z.land a 0x00000000000000FF) in
  b ← checked_shl 64 val 56;
  let temp := to_uint64 (Z.lor temp (Z.land (to_uint64 b) 0xFF00000000000000)) in
  c ← checked_shr 64 val 40;
  let temp := to_uint64 (Z.lor temp (Z.land c 0x000000000000FF00)) in
  d ← checked_shl 64 val 40;
  let temp := to_uint64 (Z.lor temp (Z.land (to_uint64 d) 0x00FF000000000000)) in
  e ← checked_shr 64 val 24;
  let temp := to_uint64 (Z.lor temp (Z.land e 0x0000000000FF0000)) in
  f ← checked_shl 64 val 24;
  let temp := to_uint64 (Z.lor temp (Z.land (to_uint64 f) 0x0000FF0000000000)) in
  g ← checked_shr 64 val 8;
  let temp := to_uint64 (Z.lor temp (Z.land g 0x00000000FF000000)) in
  h ← checked_shl 64 val 8;
  let temp := to_uint64 (Z.lor temp (Z.land (to_uint64 h) 0x000000FF00000000)) in
  Some temp.

Definition swap_bytes_sint64_checked (val : Z) : option Z :=
  let temp := 0 in
  a ← checked_shr 64 val 56;
  let temp := to_sint64 (Z.land (to_uint64 a) 0x00000000000000FF) in
  b ← checked_shl 64 val 56;
  let temp := to_sint64 (Z.lor (to_uint64 temp)
                (Z.land (to_uint64 (to_sint64 b)) 0xFF00000000000000)) in
  c ← checked_shr 64 val 40;
  let temp := to_sint64 (Z.lor (to_uint64 temp)
                (Z.land (to_uint64 c) 0x000000000000FF00)) in
  d ← checked_shl 64 val 40;
  let temp := to_sint64 (Z.lor (to_uint64 temp)
                (Z.land (to_uint64 (to_sint64 d)) 0x00FF000000000000)) in
  e ← checked_shr 64 val 24;
  let temp := to_sint64 (Z.lor (to_uint64 temp)
                (Z.land (to_uint64 e) 0x0000000000FF0000)) in
  f ← checked_shl 64 val 24;
  let temp := to_sint64 (Z.lor (to_uint64 temp)
                (Z.land (to_uint64 (to_sint64 f)) 0x0000FF0000000000)) in
  g ← checked_shr 64 val 8;
  let temp := to_sint64 (Z.lor (to_uint64 temp)
                (Z.land (to_uint64 g) 0x00000000FF000000)) in
  h ← checked_shl 64 val 8;
  let temp := to_sint64 (Z.lor (to_uint64 temp)
                (Z.land (to_uint64 (to_sint64 h)) 0x000000FF00000000)) in
  Some temp.

Definition swap_bytes_float32_checked (fval : list Byte.byte)
    : option (list Byte.byte) :=
  let float_swapped := replicate 4 Byte.x00 in
  let temp := float_move fu 23 8 fval in
  b ← checked_read temp 3; float_swapped ← checked_write float_swapped 0 b;
  b ← checked_read temp 2; float_swapped ← checked_write float_swapped 1 b;
  b ← checked_read temp 1; float_swapped ← checked_write float_swapped 2 b;
  b ← checked_read temp 0; float_swapped ← checked_write float_swapped 3 b;
  Some (float_move fu 23 8 float_swapped).

Definition swap_bytes_float64_checked (fval : list Byte.byte)
    : option (list Byte.byte) :=
  let float_swapped := replicate 8 Byte.x00 in
  let temp := float_move fu 52 11 fval in
  b ← checked_read temp 7; float_swapped ← checked_write float_swapped 0 b;
  b ← checked_read temp 6; float_swapped ← checked_write float_swapped 1 b;
  b ← checked_read temp 5; float_swapped ← checked_write float_swapped 2 b;
  b ← checked_read temp 4; float_swapped ← checked_write float_swapped 3 b;
  b ← checked_read temp 3; float_swapped ← checked_write float_swapped 4 b;
  b ← checked_read temp 2; float_swapped ← checked_write float_swapped 5 b;
  b ← checked_read temp 1; float_swapped ← checked_write float_swapped 6 b;
  b ← checked_read temp 0; float_swapped ← checked_write float_swapped 7 b;
  Some (float_move fu 52 11 float_swapped).

Definition swap_bytes_checked (T : ctype) : repr T -> option (repr T) :=
  match T return repr T -> option (repr T) with
  | uint8 => swap_bytes_uint8_checked
  | uint16 => swap_bytes_uint16_checked
  | sint16 => swap_bytes_sint16_checked
  | uint32 => swap_bytes_uint32_checked
  | sint32 => swap_bytes_sint32_checked
  | uint64 => swap_bytes_uint64_checked
  | sint64 => swap_bytes_sint64_checked
  | float32 => swap_bytes_float32_checked
  | float64 => swap_bytes_float64_checked
  end.

Definition to_network_checked
    (LITTLE_ENDIAN BYTE_ORDER : Z) (T : ctype) (value : repr T)
    : option (repr T) :=
  let convert := value in
  if BYTE_ORDER =? LITTLE_ENDIAN then swap_bytes_checked T value
  else Some convert.

Definition from_network_checked
    (LITTLE_ENDIAN BYTE_ORDER : Z) (T : ctype) (value : repr T)
    : option (repr T) :=
  let convert := value in
  if BYTE_ORDER =? LITTLE_ENDIAN then swap_bytes_checked T value
  else Some convert.

(** * Proofs *)

(** ** The code on a few inputs *)

Example swap16_1234 : swap_bytes_uint16 0x1234 = 0x3412.
Proof. reflexivity. Qed.

Example swap_s16_m2 : swap_bytes_sint16 (-2) = -257.
Proof. reflexivity. Qed.

Example swap_s32_ex : swap_bytes_sint32 0x12345678 = 0x78563412.
Proof. reflexivity. Qed.

Example swap_s32_neg : swap_bytes_sint32 0x80 = - 2 ^ 31.
Proof. reflexivity. Qed.

Example swap_s64_ex : swap_bytes_sint64 (-2) = to_sint64 0xFEFFFFFFFFFFFFFF.
Proof. reflexivity. Qed.

Example swap_u64_ex : swap_bytes_uint64 0x0102030405060708 = 0x0807060504030201.
Proof. reflexivity. Qed.

Example f32_ex : swap_bytes_float32 [Byte.x00; Byte.x00; Byte.x80; Byte.x3f]
  = [Byte.x3f; Byte.x80; Byte.x00; Byte.x00].
Proof. unfold swap_bytes_float32. destruct fu; reflexivity. Qed.

Example f64_ex :
  swap_bytes_float64
    [Byte.x00; Byte.x00; Byte.x00; Byte.x00; Byte.x00; Byte.x00; Byte.xf0; Byte.xbf]
  = [Byte.xbf; Byte.xf0; Byte.x00; Byte.x00; Byte.x00; Byte.x00; Byte.x00; Byte.x00].
Proof. unfold swap_bytes_float64. destruct fu; reflexivity. Qed.

Example byte_reverse_ex : byte_reverse 4 0x12345678 = 0x78563412.
Proof. reflexivity. Qed.

Example to_network_little : to_network 1234 1234 uint32 0x12345678 = 0x78563412.
Proof. reflexivity. Qed.

Example to_network_big : to_network 1234 4321 uint32 0x12345678 = 0x12345678.
Proof. reflexivity. Qed.

(** ** Conversions between signed and unsigned *)

Section Conversions.

Variable w : Z.
Hypothesis w_pos : 0 < w.

Lemma pow2_half : 2 ^ w = 2 * 2 ^ (w - 1).
Proof.
  replace w with (Z.succ (w - 1)) at 1 by lia.
  rewrite Z.pow_succ_r by lia. reflexivity.
Qed.

Lemma pow2_half_pos : 0 < 2 ^ (w - 1).
Proof. apply Z.pow_pos_nonneg; lia. Qed.

Lemma to_unsigned_range x : unsigned_range w (to_unsigned w x).
Proof.
  unfold unsigned_range, to_unsigned.
  apply Z.mod_pos_bound. apply Z.pow_pos_nonneg; lia.
Qed.

Lemma to_signed_range x : signed_range w (to_signed w x).
Proof.
  unfold signed_range, to_signed.
  pose proof pow2_half. pose proof pow2_half_pos.
  pose proof (Z.mod_pos_bound (x + 2 ^ (w - 1)) (2 ^ w)). lia.
Qed.

Lemma to_unsigned_id x : unsigned_range w x -> to_unsigned w x = x.
Proof. intros H. apply Z.mod_small. exact H. Qed.

Lemma to_signed_id x : signed_range w x -> to_signed w x = x.
Proof.
  unfold signed_range, to_signed. intros H.
  pose proof pow2_half. rewrite Z.mod_small; lia.
Qed.

Lemma to_signed_mod x : to_signed w x mod 2 ^ w = x mod 2 ^ w.
Proof.
  unfold to_signed. pose proof pow2_half_pos. pose proof pow2_half.
  rewrite Zminus_mod, Zmod_mod, <- Zminus_mod.
  f_equal. lia.
Qed.

Lemma to_unsigned_to_signed x : to_unsigned w (to_signed w x) = to_unsigned w x.
Proof. apply to_signed_mod. Qed.

Lemma to_signed_eq_mod a b : a mod 2 ^ w = b mod 2 ^ w -> to_signed w a = to_signed w b.
Proof.
  intros H. unfold to_signed. f_equal.
  rewrite (Zplus_mod a), (Zplus_mod b), H. reflexivity.
Qed.

Lemma to_signed_to_unsigned x : to_signed w (to_unsigned w x) = to_signed w x.
Proof. apply to_signed_eq_mod. unfold to_unsigned. apply Zmod_mod. Qed.

(** Above its width a signed value repeats its sign. *)
Lemma testbit_sign s n :
  signed_range w s -> w - 1 <= n -> Z.testbit s n = (s <? 0).
Proof.
  unfold signed_range. intros Hs Hn. pose proof pow2_half_pos.
  destruct (Z.ltb_spec s 0) as [Hneg | Hpos].
  - replace s with (Z.lnot (- s - 1)) by (unfold Z.lnot; lia).
    rewrite Z.lnot_spec by lia.
    rewrite <- (Z.mod_small (- s - 1) (2 ^ (w - 1))) by lia.
    rewrite Z.mod_pow2_bits_high by lia. reflexivity.
  - rewrite <- (Z.mod_small s (2 ^ (w - 1))) by lia.
    apply Z.mod_pow2_bits_high. lia.
Qed.

(** The bits of a value converted to a signed type: the low [w] bits are
    kept and bit [w - 1] is copied upwards. *)
Lemma testbit_to_signed x n :
  0 <= n -> Z.testbit (to_signed w x) n = Z.testbit x (Z.min n (w - 1)).
Proof.
  intros Hn.
  assert (Hlow : forall m, 0 <= m < w ->
            Z.testbit (to_signed w x) m = Z.testbit x m).
  { intros m Hm.
    rewrite <- (Z.mod_pow2_bits_low (to_signed w x) w m) by lia.
    rewrite to_signed_mod. apply Z.mod_pow2_bits_low. lia. }
  destruct (Z.lt_ge_cases n w) as [Hlt | Hge].
  - rewrite Z.min_l by lia. apply Hlow. lia.
  - rewrite Z.min_r by lia.
    rewrite (testbit_sign (to_signed w x) n (to_signed_range x)) by lia.
    rewrite <- Hlow by lia.
    symmetry. apply testbit_sign; [apply to_signed_range | lia].
Qed.

Lemma to_signed_low_bits a b :
  (forall n, 0 <= n < w -> Z.testbit a n = Z.testbit b n) ->
  to_signed w a = to_signed w b.
Proof.
  intros H. apply to_signed_eq_mod. apply Z.bits_inj'. intros n Hn.
  rewrite !Z.testbit_mod_pow2 by lia.
  destruct (Z.ltb_spec n w); [rewrite H by lia|]; reflexivity.
Qed.

End Conversions.

(** ** Bitwise reading of the swap functions *)

(** A run of [len] one bits starting at bit [lo]: the shape of every mask
    in the source. *)
Lemma testbit_mask lo len n :
  0 <= lo -> 0 <= len -> 0 <= n ->
  Z.testbit (Z.shiftl (Z.ones len) lo) n = (lo <=? n) && (n <? lo + len).
Proof.
  intros Hlo Hlen Hn. rewrite Z.shiftl_spec by lia.
  destruct (Z.leb_spec lo n) as [Hle | Hgt].
  - rewrite Z.testbit_ones_nonneg by lia.
    destruct (Z.ltb_spec (n - lo) len), (Z.ltb_spec n (lo + len)); (reflexivity || lia).
  - rewrite Z.testbit_neg_r by lia. reflexivity.
Qed.

Lemma testbit_byte_at x i n :
  0 <= i ->
  Z.testbit (byte_at x i) n = Z.testbit x (n + 8 * i) && ((0 <=? n) && (n <? 8)).
Proof.
  intros Hi. destruct (Z.leb_spec 0 n) as [Hn | Hn].
  - unfold byte_at. rewrite Z.land_spec, Z.shiftr_spec by lia.
    change 0xFF with (Z.ones 8). rewrite Z.testbit_ones_nonneg by lia.
    reflexivity.
  - rewrite Z.testbit_neg_r by lia. rewrite andb_false_r. reflexivity.
Qed.

(** Write a literal mask as a shifted run of ones. *)
Ltac name_mask :=
  match goal with
  | |- context [Z.testbit (Z.pos ?p) _] =>
      first
        [ change (Z.pos p) with (Z.shiftl (Z.ones 16) 0)
        | change (Z.pos p) with (Z.shiftl (Z.ones 8) 0)
        | change (Z.pos p) with (Z.shiftl (Z.ones 8) 8)
        | change (Z.pos p) with (Z.shiftl (Z.ones 8) 16)
        | change (Z.pos p) with (Z.shiftl (Z.ones 8) 24)
        | change (Z.pos p) with (Z.shiftl (Z.ones 8) 32)
        | change (Z.pos p) with (Z.shiftl (Z.ones 8) 40)
        | change (Z.pos p) with (Z.shiftl (Z.ones 8) 48)
        | change (Z.pos p) with (Z.shiftl (Z.ones 8) 56) ];
      rewrite testbit_mask by lia
  end.

(** Push [Z.testbit] through the operations of the source. *)
Ltac push_testbit :=
  repeat first
    [ rewrite Z.lor_spec
    | rewrite Z.land_spec
    | rewrite Z.shiftr_spec by lia
    | rewrite Z.shiftl_spec by lia
    | rewrite Z.testbit_mod_pow2 by lia
    | rewrite testbit_to_signed by lia
    | rewrite testbit_byte_at by lia
    | rewrite Z.testbit_0_l
    | name_mask ].

(** Settle the comparisons the masks and wraps leave behind. *)
Ltac decide_cmp :=
  repeat match goal with
  | |- context [?a <? ?b] =>
      first [ rewrite (proj2 (Z.ltb_lt a b)) by lia
            | rewrite (proj2 (Z.ltb_ge a b)) by lia ]
  | |- context [?a <=? ?b] =>
      first [ rewrite (proj2 (Z.leb_le a b)) by lia
            | rewrite (proj2 (Z.leb_gt a b)) by lia ]
  | |- context [Z.min ?a ?b] =>
      first [ rewrite (Z.min_l a b) by lia
            | rewrite (Z.min_r a b) by lia ]
  | |- context [Z.testbit ?a ?i] => rewrite (Z.testbit_neg_r a i) by lia
  end.

Ltac bool_simpl :=
  rewrite ?andb_true_r, ?andb_false_r, ?andb_true_l, ?andb_false_l,
          ?orb_false_r, ?orb_false_l.

(** [lia] after the quotients by 8 have been replaced by their equations. *)
Ltac dlia := Z.div_mod_to_equations; lia.

(** The byte a bit position lies in. *)
Ltac pick_byte n :=
  let H := fresh "Hbyte" in
  assert (H : n < 8 \/ 8 <= n < 16 \/ 16 <= n < 24 \/ 24 <= n < 32 \/
              32 <= n < 40 \/ 40 <= n < 48 \/ 48 <= n < 56 \/
              56 <= n < 64 \/ 64 <= n) by lia;
  destruct H as [H|[H|[H|[H|[H|[H|[H|[H|H]]]]]]]].

Ltac same_bit :=
  first [ reflexivity
        | match goal with
          | |- Z.testbit ?x ?a = Z.testbit ?x ?b =>
              replace a with b by dlia; reflexivity
          end ].

Ltac bitblast n :=
  push_testbit; pick_byte n; decide_cmp; bool_simpl; same_bit.

Lemma swap_bytes_uint16_reverses x : reverses 2 (swap_bytes_uint16 x) x.
Proof.
  intros n Hn. unfold swap_bytes_uint16, to_uint16, to_int, to_unsigned, mirror.
  bitblast n.
Qed.

Lemma swap_bytes_uint32_reverses x : reverses 4 (swap_bytes_uint32 x) x.
Proof.
  intros n Hn. unfold swap_bytes_uint32, to_uint32, to_unsigned, mirror.
  bitblast n.
Qed.

Lemma swap_bytes_uint64_reverses x : reverses 8 (swap_bytes_uint64 x) x.
Proof.
  intros n Hn. unfold swap_bytes_uint64, to_uint64, to_unsigned, mirror.
  bitblast n.
Qed.

(** Each signed specialization computes the bits of its unsigned sibling,
    read back as a signed number. *)
Lemma swap_bytes_sint16_unsigned x :
  swap_bytes_sint16 x = to_signed 16 (swap_bytes_uint16 x).
Proof.
  unfold swap_bytes_sint16, to_sint16; cbv zeta.
  apply to_signed_low_bits; [lia|]. intros n Hn.
  rewrite (swap_bytes_uint16_reverses x n) by lia.
  unfold to_int, mirror. bitblast n.
Qed.

Lemma swap_bytes_sint32_unsigned x :
  swap_bytes_sint32 x = to_signed 32 (swap_bytes_uint32 x).
Proof.
  unfold swap_bytes_sint32, to_sint32; cbv zeta.
  apply to_signed_low_bits; [lia|]. intros n Hn.
  rewrite (swap_bytes_uint32_reverses x n) by lia.
  unfold mirror. bitblast n.
Qed.

Lemma swap_bytes_sint64_unsigned x :
  swap_bytes_sint64 x = to_signed 64 (swap_bytes_uint64 x).
Proof.
  unfold swap_bytes_sint64, to_sint64; cbv zeta.
  apply to_signed_low_bits; [lia|]. intros n Hn.
  rewrite (swap_bytes_uint64_reverses x n) by lia.
  unfold to_uint64, to_unsigned, mirror. bitblast n.
Qed.

(** ** What a byte reversal satisfies *)

Section Reversal.

Variable w : Z.
Hypothesis w_pos : 0 < w.

Lemma reverses_mod y x : reverses w y x -> y mod 2 ^ (8 * w) = y.
Proof.
  intros H. apply Z.bits_inj'. intros n Hn.
  rewrite Z.testbit_mod_pow2, H by lia.
  destruct (n <? 8 * w); reflexivity.
Qed.

Lemma reverses_range y x : reverses w y x -> unsigned_range (8 * w) y.
Proof.
  intros H. unfold unsigned_range. rewrite <- (reverses_mod y x H).
  apply Z.mod_pos_bound. apply Z.pow_pos_nonneg; lia.
Qed.

Lemma reverses_unique y y' x : reverses w y x -> reverses w y' x -> y = y'.
Proof.
  intros H H'. apply Z.bits_inj'. intros n Hn.
  rewrite H, H' by lia. reflexivity.
Qed.

Lemma reverses_twice z y x :
  reverses w y x -> reverses w z y -> z = x mod 2 ^ (8 * w).
Proof.
  intros Hy Hz. apply Z.bits_inj'. intros n Hn.
  rewrite Z.testbit_mod_pow2, Hz by lia.
  destruct (Z.ltb_spec n (8 * w)) as [Hlt | Hge]; [|reflexivity].
  unfold mirror in *. rewrite Hy by dlia.
  rewrite (proj2 (Z.ltb_lt _ _)) by dlia.
  cbn [andb]. f_equal. unfold mirror. dlia.
Qed.

Lemma reverses_byte_at y x i :
  reverses w y x -> 0 <= i < w -> byte_at y (w - 1 - i) = byte_at x i.
Proof.
  intros H Hi. apply Z.bits_inj'. intros n Hn.
  rewrite !testbit_byte_at by lia.
  destruct (Z.ltb_spec n 8) as [Hlt | Hge]; [|rewrite !andb_false_r; reflexivity].
  rewrite (proj2 (Z.leb_le 0 n)) by lia.
  rewrite !andb_true_r, H by lia. unfold mirror.
  rewrite (proj2 (Z.ltb_lt _ _)) by lia.
  cbn [andb]. f_equal. dlia.
Qed.

(** Only the low [8 * w] bits of the input matter. *)
Lemma reverses_low_bits y x x' :
  reverses w y x -> x mod 2 ^ (8 * w) = x' mod 2 ^ (8 * w) -> reverses w y x'.
Proof.
  intros H Hx n Hn. rewrite H by lia.
  destruct (Z.ltb_spec n (8 * w)) as [Hlt | Hge]; [|reflexivity].
  cbn [andb]. unfold mirror.
  rewrite <- (Z.mod_pow2_bits_low x (8 * w)) by dlia.
  rewrite Hx. apply Z.mod_pow2_bits_low. dlia.
Qed.

End Reversal.

Ltac unfold_byte_reverse :=
  unfold byte_reverse, positions;
  match goal with
  | |- context [Z.to_nat ?w] =>
      let k := eval compute in (Z.to_nat w) in change (Z.to_nat w) with k
  end;
  cbn [seq map fold_right Z.of_nat Pos.of_succ_nat Pos.succ].

Lemma byte_reverse_2 x : reverses 2 (byte_reverse 2 x) x.
Proof. intros n Hn. unfold_byte_reverse. unfold mirror. bitblast n. Qed.

Lemma byte_reverse_4 x : reverses 4 (byte_reverse 4 x) x.
Proof. intros n Hn. unfold_byte_reverse. unfold mirror. bitblast n. Qed.

Lemma byte_reverse_8 x : reverses 8 (byte_reverse 8 x) x.
Proof. intros n Hn. unfold_byte_reverse. unfold mirror. bitblast n. Qed.

(** ** An unsigned specialization and its signed sibling *)

Lemma byte_at_to_signed w x i :
  0 <= i < w -> byte_at (to_signed (8 * w) x) i = byte_at x i.
Proof.
  intros Hi. apply Z.bits_inj'. intros n Hn.
  rewrite !testbit_byte_at by lia.
  destruct (Z.ltb_spec n 8) as [Hlt | Hge]; [|rewrite !andb_false_r; reflexivity].
  rewrite testbit_to_signed by lia.
  rewrite Z.min_l by lia. reflexivity.
Qed.

Section SwapPair.

(** [f] is the unsigned specialization for [w] bytes and [g] the signed
    one. *)
Variables w bits : Z.
Variables f g : Z -> Z.
Hypothesis pair : swap_pair w bits f g.

Lemma pair_pos : 0 < w.
Proof. apply pair. Qed.

Lemma pair_bits : bits = 8 * w.
Proof. apply pair. Qed.

Lemma pair_bits_pos : 0 < bits.
Proof. rewrite pair_bits. pose proof pair_pos. lia. Qed.

Lemma pair_reverses x : reverses w (f x) x.
Proof. apply pair. Qed.

Lemma pair_signed x : g x = to_signed bits (f x).
Proof. apply pair. Qed.

Lemma swap_low_bits a b : a mod 2 ^ bits = b mod 2 ^ bits -> f a = f b.
Proof.
  intros H. rewrite pair_bits in H.
  apply (reverses_unique w (f a) (f b) b); [|apply pair_reverses].
  apply (reverses_low_bits w pair_pos (f a) a b); [apply pair_reverses | exact H].
Qed.

Lemma swap_unsigned_range x : unsigned_range bits (f x).
Proof.
  rewrite pair_bits. apply (reverses_range w pair_pos (f x) x), pair_reverses.
Qed.

Lemma swap_unsigned_twice x : f (f x) = to_unsigned bits x.
Proof.
  rewrite pair_bits.
  apply (reverses_twice w pair_pos (f (f x)) (f x) x); apply pair_reverses.
Qed.

Lemma swap_unsigned_involutive x : unsigned_range bits x -> f (f x) = x.
Proof.
  intros H. rewrite swap_unsigned_twice. apply to_unsigned_id, H.
Qed.

Lemma swap_unsigned_byte_at x i :
  0 <= i < w -> byte_at (f x) (w - 1 - i) = byte_at x i.
Proof.
  intros Hi. apply reverses_byte_at; [apply pair_reverses | exact Hi].
Qed.

Lemma swap_signed_range x : signed_range bits (g x).
Proof. rewrite pair_signed. apply to_signed_range, pair_bits_pos. Qed.

Lemma swap_signed_pattern x : g x = to_signed bits (f (to_unsigned bits x)).
Proof.
  rewrite pair_signed. f_equal. apply swap_low_bits.
  unfold to_unsigned. symmetry. apply Zmod_mod.
Qed.

Lemma swap_signed_involutive x : signed_range bits x -> g (g x) = x.
Proof.
  intros H. rewrite !pair_signed.
  rewrite (swap_low_bits (to_signed bits (f x)) (f x))
    by apply to_signed_mod, pair_bits_pos.
  rewrite swap_unsigned_twice, to_signed_to_unsigned.
  apply to_signed_id; [apply pair_bits_pos | exact H].
Qed.

(** Bit pattern in, bit pattern out: the signed specialization is the
    unsigned one. *)
Lemma swap_signed_as_unsigned x :
  to_unsigned bits (g (to_signed bits x)) = f x.
Proof.
  rewrite pair_signed, to_unsigned_to_signed by apply pair_bits_pos.
  rewrite to_unsigned_id by apply swap_unsigned_range.
  apply swap_low_bits. apply to_signed_mod, pair_bits_pos.
Qed.

Lemma swap_signed_byte_at x i :
  0 <= i < w -> byte_at (g x) (w - 1 - i) = byte_at x i.
Proof.
  intros Hi. rewrite pair_signed, pair_bits, byte_at_to_signed by lia.
  apply swap_unsigned_byte_at, Hi.
Qed.

End SwapPair.

(** ** Floating point storage *)

Lemma le_bytes_length n p : length (le_bytes n p) = n.
Proof. unfold le_bytes. rewrite length_map, length_seq. reflexivity. Qed.

Lemma float_move_length frac_bits exp_bits s :
  length (float_move fu frac_bits exp_bits s) = length s.
Proof.
  destruct fu; [reflexivity|]. cbn [float_move]. unfold x87_load_store.
  destruct (signalling_nan _ _ _); [apply le_bytes_length | reflexivity].
Qed.

Lemma float_move_kept frac_bits exp_bits s :
  fu = bit_preserving \/ signalling_nan frac_bits exp_bits (le_value s) = false ->
  float_move fu frac_bits exp_bits s = s.
Proof.
  intros [E | H]; [rewrite E; reflexivity|].
  destruct fu; [reflexivity|]. cbn [float_move]. unfold x87_load_store.
  rewrite H. reflexivity.
Qed.

Lemma float_moves_keep_reverse32 f :
  float_moves_keep float32 f -> float_moves_keep float32 (reverse f).
Proof.
  unfold float_moves_keep. cbn [no_signalling_nan].
  intros [E | [K1 K2]]; [left; exact E | right].
  split; [exact K2 | unfold be_value; rewrite reverse_involutive; exact K1].
Qed.

Lemma float_moves_keep_reverse64 f :
  float_moves_keep float64 f -> float_moves_keep float64 (reverse f).
Proof.
  unfold float_moves_keep. cbn [no_signalling_nan].
  intros [E | [K1 K2]]; [left; exact E | right].
  split; [exact K2 | unfold be_value; rewrite reverse_involutive; exact K1].
Qed.

(** A floating point swap is the reversal of the bytes between two
    moves. *)
Lemma swap_bytes_float32_moves f :
  length f = 4%nat ->
  swap_bytes_float32 f = float_move fu 23 8 (reverse (float_move fu 23 8 f)).
Proof.
  intros H. unfold swap_bytes_float32.
  pose proof (float_move_length 23 8 f) as L. rewrite H in L.
  destruct (float_move fu 23 8 f) as [|a [|b [|c [|d [|e t]]]]];
    try discriminate L.
  reflexivity.
Qed.

Lemma swap_bytes_float64_moves f :
  length f = 8%nat ->
  swap_bytes_float64 f = float_move fu 52 11 (reverse (float_move fu 52 11 f)).
Proof.
  intros H. unfold swap_bytes_float64.
  pose proof (float_move_length 52 11 f) as L. rewrite H in L.
  destruct (float_move fu 52 11 f)
    as [|a [|b [|c [|d [|e [|f' [|g [|h [|i t]]]]]]]]];
    try discriminate L.
  reflexivity.
Qed.

Lemma swap_bytes_float32_length f : length (swap_bytes_float32 f) = 4%nat.
Proof.
  unfold swap_bytes_float32. rewrite float_move_length, !length_insert.
  reflexivity.
Qed.

Lemma swap_bytes_float64_length f : length (swap_bytes_float64 f) = 8%nat.
Proof.
  unfold swap_bytes_float64. rewrite float_move_length, !length_insert.
  reflexivity.
Qed.

Lemma swap_bytes_float32_reverse f :
  length f = 4%nat -> float_moves_keep float32 f ->
  swap_bytes_float32 f = reverse f.
Proof.
  unfold float_moves_keep. cbn [no_signalling_nan]. intros H K.
  rewrite swap_bytes_float32_moves by exact H.
  rewrite (float_move_kept 23 8 f) by (destruct K as [E | [K1 K2]]; auto).
  apply float_move_kept.
  destruct K as [E | [K1 K2]]; [left; exact E | right; exact K2].
Qed.

Lemma swap_bytes_float64_reverse f :
  length f = 8%nat -> float_moves_keep float64 f ->
  swap_bytes_float64 f = reverse f.
Proof.
  unfold float_moves_keep. cbn [no_signalling_nan]. intros H K.
  rewrite swap_bytes_float64_moves by exact H.
  rewrite (float_move_kept 52 11 f) by (destruct K as [E | [K1 K2]]; auto).
  apply float_move_kept.
  destruct K as [E | [K1 K2]]; [left; exact E | right; exact K2].
Qed.

Lemma swap_bytes_float32_involutive f :
  length f = 4%nat -> float_moves_keep float32 f ->
  swap_bytes_float32 (swap_bytes_float32 f) = f.
Proof.
  intros H K. rewrite (swap_bytes_float32_reverse f H K).
  rewrite swap_bytes_float32_reverse;
    [apply reverse_involutive
    | rewrite length_reverse; exact H
    | apply float_moves_keep_reverse32, K].
Qed.

Lemma swap_bytes_float64_involutive f :
  length f = 8%nat -> float_moves_keep float64 f ->
  swap_bytes_float64 (swap_bytes_float64 f) = f.
Proof.
  intros H K. rewrite (swap_bytes_float64_reverse f H K).
  rewrite swap_bytes_float64_reverse;
    [apply reverse_involutive
    | rewrite length_reverse; exact H
    | apply float_moves_keep_reverse64, K].
Qed.

(** ** The three pairs of the source *)

Lemma pair16 : swap_pair 2 16 swap_bytes_uint16 swap_bytes_sint16.
Proof.
  split; [lia|]. split; [reflexivity|].
  split; [exact swap_bytes_uint16_reverses | exact swap_bytes_sint16_unsigned].
Qed.

Lemma pair32 : swap_pair 4 32 swap_bytes_uint32 swap_bytes_sint32.
Proof.
  split; [lia|]. split; [reflexivity|].
  split; [exact swap_bytes_uint32_reverses | exact swap_bytes_sint32_unsigned].
Qed.

Lemma pair64 : swap_pair 8 64 swap_bytes_uint64 swap_bytes_sint64.
Proof.
  split; [lia|]. split; [reflexivity|].
  split; [exact swap_bytes_uint64_reverses | exact swap_bytes_sint64_unsigned].
Qed.

Lemma swap_bytes_uint16_reference x : swap_bytes_uint16 x = byte_reverse 2 x.
Proof.
  apply (reverses_unique 2 _ _ x);
    [apply swap_bytes_uint16_reverses | apply byte_reverse_2].
Qed.

Lemma swap_bytes_uint32_reference x : swap_bytes_uint32 x = byte_reverse 4 x.
Proof.
  apply (reverses_unique 4 _ _ x);
    [apply swap_bytes_uint32_reverses | apply byte_reverse_4].
Qed.

Lemma swap_bytes_uint64_reference x : swap_bytes_uint64 x = byte_reverse 8 x.
Proof.
  apply (reverses_unique 8 _ _ x);
    [apply swap_bytes_uint64_reverses | apply byte_reverse_8].
Qed.

(** ** Facts about every specialization *)

Lemma swap_bytes_valid T (x : repr T) : valid T x -> valid T (swap_bytes T x).
Proof.
  destruct T; cbn [valid swap_bytes]; intros H.
  - exact H.
  - apply (swap_unsigned_range _ _ _ _ pair16).
  - apply (swap_signed_range _ _ _ _ pair16).
  - apply (swap_unsigned_range _ _ _ _ pair32).
  - apply (swap_signed_range _ _ _ _ pair32).
  - apply (swap_unsigned_range _ _ _ _ pair64).
  - apply (swap_signed_range _ _ _ _ pair64).
  - apply swap_bytes_float32_length.
  - apply swap_bytes_float64_length.
Qed.

Lemma swap_bytes_twice T (x : repr T) :
  valid T x -> float_moves_keep T x -> swap_bytes T (swap_bytes T x) = x.
Proof.
  destruct T; cbn [valid swap_bytes]; intros H K.
  - reflexivity.
  - apply (swap_unsigned_involutive _ _ _ _ pair16), H.
  - apply (swap_signed_involutive _ _ _ _ pair16), H.
  - apply (swap_unsigned_involutive _ _ _ _ pair32), H.
  - apply (swap_signed_involutive _ _ _ _ pair32), H.
  - apply (swap_unsigned_involutive _ _ _ _ pair64), H.
  - apply (swap_signed_involutive _ _ _ _ pair64), H.
  - apply swap_bytes_float32_involutive; assumption.
  - apply swap_bytes_float64_involutive; assumption.
Qed.

Lemma float_moves_keep_swap T (x : repr T) :
  valid T x -> float_moves_keep T x -> float_moves_keep T (swap_bytes T x).
Proof.
  destruct T; cbn [valid swap_bytes]; intros H K;
    try (right; exact I).
  - rewrite swap_bytes_float32_reverse by assumption.
    apply float_moves_keep_reverse32, K.
  - rewrite swap_bytes_float64_reverse by assumption.
    apply float_moves_keep_reverse64, K.
Qed.

Lemma network_twice LITTLE_ENDIAN BYTE_ORDER T (x : repr T) :
  valid T x -> float_moves_keep T x ->
  from_network LITTLE_ENDIAN BYTE_ORDER T
    (to_network LITTLE_ENDIAN BYTE_ORDER T x) = x.
Proof.
  intros H K. unfold from_network, to_network.
  destruct (BYTE_ORDER =? LITTLE_ENDIAN);
    [apply swap_bytes_twice; assumption | reflexivity].
Qed.

Lemma network_valid LITTLE_ENDIAN BYTE_ORDER T (x : repr T) :
  valid T x -> valid T (to_network LITTLE_ENDIAN BYTE_ORDER T x).
Proof.
  intros H. unfold to_network.
  destruct (BYTE_ORDER =? LITTLE_ENDIAN); [apply swap_bytes_valid, H | exact H].
Qed.

Lemma unsigned_is_byte_reversal w bits f g :
  swap_pair w bits f g ->
  (forall x, f x = byte_reverse w x) ->
  is_byte_reversal w (unsigned_range bits) (fun p => p) f.
Proof.
  intros P Href x Hx. split; [|split].
  - apply (swap_unsigned_range _ _ _ _ P).
  - apply Href.
  - intros i Hi. apply (swap_unsigned_byte_at _ _ _ _ P), Hi.
Qed.

Lemma signed_is_byte_reversal w bits f g :
  swap_pair w bits f g ->
  (forall x, f x = byte_reverse w x) ->
  is_byte_reversal w (signed_range bits) (to_signed bits) g.
Proof.
  intros P Href x Hx. split; [|split].
  - apply (swap_signed_range _ _ _ _ P).
  - rewrite (pair_signed _ _ _ _ P), Href. reflexivity.
  - intros i Hi. apply (swap_signed_byte_at _ _ _ _ P), Hi.
Qed.

Lemma signed_by_pattern w bits f g x :
  swap_pair w bits f g ->
  (forall x, f x = byte_reverse w x) ->
  g x = to_signed bits (byte_reverse w (to_unsigned bits x)).
Proof.
  intros P Href. rewrite (swap_signed_pattern _ _ _ _ P), Href. reflexivity.
Qed.

(** * The properties the specification states *)

(** C2. Each multi-byte integer specialization is the reference byte
    reversal: on every value of its type the result is again a value of the
    type, it equals [byte_reverse] of the input (read as a signed number
    for the signed types), and the byte at position [i] of the input is the
    byte at position [w - 1 - i] of the result.  The known vectors follow. *)
Theorem swap_bytes_byte_reversal :
  is_byte_reversal (sizeof uint16) (valid uint16) (fun p => p) (swap_bytes uint16) /\
  is_byte_reversal (sizeof sint16) (valid sint16) to_sint16 (swap_bytes sint16) /\
  is_byte_reversal (sizeof uint32) (valid uint32) (fun p => p) (swap_bytes uint32) /\
  is_byte_reversal (sizeof sint32) (valid sint32) to_sint32 (swap_bytes sint32) /\
  is_byte_reversal (sizeof uint64) (valid uint64) (fun p => p) (swap_bytes uint64) /\
  is_byte_reversal (sizeof sint64) (valid sint64) to_sint64 (swap_bytes sint64) /\
  swap_bytes uint16 0x1234 = 0x3412 /\
  swap_bytes sint16 0x1234 = 0x3412 /\
  swap_bytes uint32 0x12345678 = 0x78563412 /\
  swap_bytes sint32 0x12345678 = 0x78563412 /\
  swap_bytes uint64 0x0102030405060708 = 0x0807060504030201 /\
  swap_bytes sint64 0x0102030405060708 = 0x0807060504030201.
Proof.
  cbn [swap_bytes sizeof valid]. unfold to_sint16, to_sint32, to_sint64.
  split; [apply (unsigned_is_byte_reversal _ _ _ _ pair16 swap_bytes_uint16_reference)|].
  split; [apply (signed_is_byte_reversal _ _ _ _ pair16 swap_bytes_uint16_reference)|].
  split; [apply (unsigned_is_byte_reversal _ _ _ _ pair32 swap_bytes_uint32_reference)|].
  split; [apply (signed_is_byte_reversal _ _ _ _ pair32 swap_bytes_uint32_reference)|].
  split; [apply (unsigned_is_byte_reversal _ _ _ _ pair64 swap_bytes_uint64_reference)|].
  split; [apply (signed_is_byte_reversal _ _ _ _ pair64 swap_bytes_uint64_reference)|].
  repeat split; reflexivity.
Qed.

(** C4. On a host whose [BYTE_ORDER] is [BIG_ENDIAN], [to_network] and
    [from_network] return the value unchanged; on a host whose
    [BYTE_ORDER] is [LITTLE_ENDIAN] (a Unix host that says so, or any
    Windows host) they return [swap_bytes] of it, applied once. *)
Theorem network_by_host_order
    (LITTLE_ENDIAN BIG_ENDIAN : Z) (host : platform) (T : ctype) (x : repr T) :
  LITTLE_ENDIAN <> BIG_ENDIAN ->
  (BYTE_ORDER_of LITTLE_ENDIAN host = BIG_ENDIAN ->
     to_network LITTLE_ENDIAN (BYTE_ORDER_of LITTLE_ENDIAN host) T x = x /\
     from_network LITTLE_ENDIAN (BYTE_ORDER_of LITTLE_ENDIAN host) T x = x) /\
  (BYTE_ORDER_of LITTLE_ENDIAN host = LITTLE_ENDIAN ->
     to_network LITTLE_ENDIAN (BYTE_ORDER_of LITTLE_ENDIAN host) T x
       = swap_bytes T x /\
     from_network LITTLE_ENDIAN (BYTE_ORDER_of LITTLE_ENDIAN host) T x
       = swap_bytes T x).
Proof.
  intros Hne. unfold to_network, from_network. split; intros Hbo; rewrite Hbo.
  - rewrite (proj2 (Z.eqb_neq BIG_ENDIAN LITTLE_ENDIAN)) by congruence.
    split; reflexivity.
  - rewrite Z.eqb_refl. split; reflexivity.
Qed.

(** C5. The signed specializations mask every shift, so no sign extension
    bit reaches the result: for every signed value of 2, 4 or 8 bytes the
    result is the two's complement reading of the byte reversed bit
    pattern of the input.  In particular [-1] (pattern [0xFFFF]) stays
    [-1], and [-2] (pattern [0xFFFE]) becomes the value with pattern
    [0xFEFF]. *)
Theorem swap_bytes_signed_pattern :
  (forall x, valid sint16 x ->
     swap_bytes sint16 x = to_sint16 (byte_reverse 2 (to_uint16 x))) /\
  (forall x, valid sint32 x ->
     swap_bytes sint32 x = to_sint32 (byte_reverse 4 (to_uint32 x))) /\
  (forall x, valid sint64 x ->
     swap_bytes sint64 x = to_sint64 (byte_reverse 8 (to_uint64 x))) /\
  swap_bytes sint16 (-1) = -1 /\
  to_uint16 (-2) = 0xFFFE /\
  to_uint16 (swap_bytes sint16 (-2)) = 0xFEFF.
Proof.
  cbn [swap_bytes valid].
  unfold to_sint16, to_sint32, to_sint64, to_uint16, to_uint32, to_uint64.
  split; [intros x _;
    apply (signed_by_pattern _ _ _ _ x pair16 swap_bytes_uint16_reference)|].
  split; [intros x _;
    apply (signed_by_pattern _ _ _ _ x pair32 swap_bytes_uint32_reference)|].
  split; [intros x _;
    apply (signed_by_pattern _ _ _ _ x pair64 swap_bytes_uint64_reference)|].
  repeat split; reflexivity.
Qed.

(** C7. [from_network] and [to_network] are the same function: for every
    configuration, type and value, [from_network x = to_network x]. *)
Theorem from_network_eq_to_network
    (LITTLE_ENDIAN BYTE_ORDER : Z) (T : ctype) (x : repr T) :
  from_network LITTLE_ENDIAN BYTE_ORDER T x
    = to_network LITTLE_ENDIAN BYTE_ORDER T x.
Proof. reflexivity. Qed.

(** C8. The specialization for one byte is the identity on each of the
    256 values of [uint8]. *)
Theorem swap_bytes_uint8_identity (x : Z) :
  valid uint8 x -> swap_bytes uint8 x = x.
Proof. intros _. reflexivity. Qed.

Lemma checked_shr_ok bits x n :
  0 <= n < bits -> checked_shr bits x n = Some (Z.shiftr x n).
Proof.
  intros H. unfold checked_shr.
  rewrite (proj2 (Z.leb_le 0 n)), (proj2 (Z.ltb_lt n bits)) by lia.
  reflexivity.
Qed.

Lemma checked_shl_ok bits x n :
  0 <= n < bits -> checked_shl bits x n = Some (Z.shiftl x n).
Proof.
  intros H. unfold checked_shl.
  rewrite (proj2 (Z.leb_le 0 n)), (proj2 (Z.ltb_lt n bits)) by lia.
  reflexivity.
Qed.

(** Run the checked shifts of an integer specialization one by one. *)
Ltac run_checked :=
  cbv zeta;
  repeat (first [ rewrite checked_shr_ok by lia
                | rewrite checked_shl_ok by lia ];
          cbn [mbind option_bind]);
  reflexivity.

Lemma swap_bytes_uint16_checked_ok val :
  swap_bytes_uint16_checked val = Some (swap_bytes_uint16 val).
Proof. unfold swap_bytes_uint16_checked, swap_bytes_uint16. run_checked. Qed.

Lemma swap_bytes_sint16_checked_ok val :
  swap_bytes_sint16_checked val = Some (swap_bytes_sint16 val).
Proof. unfold swap_bytes_sint16_checked, swap_bytes_sint16. run_checked. Qed.

Lemma swap_bytes_uint32_checked_ok val :
  swap_bytes_uint32_checked val = Some (swap_bytes_uint32 val).
Proof. unfold swap_bytes_uint32_checked, swap_bytes_uint32. run_checked. Qed.

Lemma swap_bytes_sint32_checked_ok val :
  swap_bytes_sint32_checked val = Some (swap_bytes_sint32 val).
Proof. unfold swap_bytes_sint32_checked, swap_bytes_sint32. run_checked. Qed.

Lemma swap_bytes_uint64_checked_ok val :
  swap_bytes_uint64_checked val = Some (swap_bytes_uint64 val).
Proof. unfold swap_bytes_uint64_checked, swap_bytes_uint64. run_checked. Qed.

Lemma swap_bytes_sint64_checked_ok val :
  swap_bytes_sint64_checked val = Some (swap_bytes_sint64 val).
Proof. unfold swap_bytes_sint64_checked, swap_bytes_sint64. run_checked. Qed.

Lemma swap_bytes_float32_checked_ok f :
  length f = 4%nat ->
  swap_bytes_float32_checked f = Some (swap_bytes_float32 f).
Proof.
  intros H. unfold swap_bytes_float32_checked, swap_bytes_float32.
  pose proof (float_move_length 23 8 f) as L. rewrite H in L.
  destruct (float_move fu 23 8 f) as [|a [|b [|c [|d [|e t]]]]];
    try discriminate L.
  reflexivity.
Qed.

Lemma swap_bytes_float64_checked_ok f :
  length f = 8%nat ->
  swap_bytes_float64_checked f = Some (swap_bytes_float64 f).
Proof.
  intros H. unfold swap_bytes_float64_checked, swap_bytes_float64.
  pose proof (float_move_length 52 11 f) as L. rewrite H in L.
  destruct (float_move fu 52 11 f)
    as [|a [|b [|c [|d [|e [|f' [|g [|h [|i t]]]]]]]]];
    try discriminate L.
  reflexivity.
Qed.

Lemma swap_bytes_checked_ok T (x : repr T) :
  valid T x -> swap_bytes_checked T x = Some (swap_bytes T x).
Proof.
  destruct T; cbn [valid swap_bytes swap_bytes_checked]; intros H.
  - reflexivity.
  - apply swap_bytes_uint16_checked_ok.
  - apply swap_bytes_sint16_checked_ok.
  - apply swap_bytes_uint32_checked_ok.
  - apply swap_bytes_sint32_checked_ok.
  - apply swap_bytes_uint64_checked_ok.
  - apply swap_bytes_sint64_checked_ok.
  - apply swap_bytes_float32_checked_ok, H.
  - apply swap_bytes_float64_checked_ok, H.
Qed.

(** C9. Every operation is total: run with every shift and every byte
    access checked (a shift count outside the width of the operand and a
    byte index outside the object being the undefined cases), on every
    value of a supported type and on every build, [swap_bytes],
    [to_network] and [from_network] reach no undefined case and return a
    result; it is the result of the operation as embedded above, and a
    value of the same type. *)
Theorem operations_total
    (LITTLE_ENDIAN BYTE_ORDER : Z) (T : ctype) (x : repr T) :
  valid T x ->
  (exists y, swap_bytes_checked T x = Some y /\
             y = swap_bytes T x /\ valid T y) /\
  (exists y, to_network_checked LITTLE_ENDIAN BYTE_ORDER T x = Some y /\
             y = to_network LITTLE_ENDIAN BYTE_ORDER T x /\ valid T y) /\
  (exists y, from_network_checked LITTLE_ENDIAN BYTE_ORDER T x = Some y /\
             y = from_network LITTLE_ENDIAN BYTE_ORDER T x /\ valid T y).
Proof.
  intros H.
  assert (Hs : swap_bytes_checked T x = Some (swap_bytes T x))
    by apply swap_bytes_checked_ok, H.
  assert (Hv : valid T (swap_bytes T x)) by apply swap_bytes_valid, H.
  split; [|split].
  - exists (swap_bytes T x). auto.
  - exists (to_network LITTLE_ENDIAN BYTE_ORDER T x).
    unfold to_network_checked, to_network.
    destruct (BYTE_ORDER =? LITTLE_ENDIAN); auto.
  - exists (from_network LITTLE_ENDIAN BYTE_ORDER T x).
    unfold from_network_checked, from_network.
    destruct (BYTE_ORDER =? LITTLE_ENDIAN); auto.
Qed.

(** C10. For 2, 4 and 8 bytes the signed and the unsigned specialization
    compute the same function on bit patterns: reading a pattern [x] as a
    signed number, swapping it with the signed specialization and reading
    the result as unsigned gives what the unsigned specialization gives
    on [x]. *)
Theorem swap_bytes_signed_unsigned_agree :
  (forall x, valid uint16 x ->
     to_uint16 (swap_bytes sint16 (to_sint16 x)) = swap_bytes uint16 x) /\
  (forall x, valid uint32 x ->
     to_uint32 (swap_bytes sint32 (to_sint32 x)) = swap_bytes uint32 x) /\
  (forall x, valid uint64 x ->
     to_uint64 (swap_bytes sint64 (to_sint64 x)) = swap_bytes uint64 x).
Proof.
  cbn [swap_bytes valid].
  unfold to_sint16, to_sint32, to_sint64, to_uint16, to_uint32, to_uint64.
  split; [|split]; intros x _.
  - apply (swap_signed_as_unsigned _ _ _ _ pair16).
  - apply (swap_signed_as_unsigned _ _ _ _ pair32).
  - apply (swap_signed_as_unsigned _ _ _ _ pair64).
Qed.

(** * Further properties of the code *)

(** ** Stored bytes and their value *)

Lemma byte_value_range b : 0 <= byte_value b < 256.
Proof.
  unfold byte_value. pose proof (Strings.Byte.to_N_bounded b). lia.
Qed.

Lemma testbit_add_byte a v n :
  0 <= a < 256 -> 0 <= n ->
  Z.testbit (a + 256 * v) n
    = if n <? 8 then Z.testbit a n else Z.testbit v (n - 8).
Proof.
  intros Ha Hn. destruct (Z.ltb_spec n 8) as [Hlt | Hge].
  - rewrite <- (Z.mod_pow2_bits_low (a + 256 * v) 8 n) by lia.
    change (2 ^ 8) with 256.
    replace ((a + 256 * v) mod 256) with a by dlia. reflexivity.
  - replace n with (n - 8 + 8) at 1 by lia.
    rewrite <- Z.div_pow2_bits by lia.
    change (2 ^ 8) with 256.
    replace ((a + 256 * v) / 256) with v by dlia. reflexivity.
Qed.

Lemma testbit_byte_value_high b n : 8 <= n -> Z.testbit (byte_value b) n = false.
Proof.
  intros Hn. pose proof (byte_value_range b).
  rewrite <- (Z.mod_small (byte_value b) (2 ^ 8)) by (change (2 ^ 8) with 256; lia).
  apply Z.mod_pow2_bits_high. lia.
Qed.

(** Bit [n] of the value is bit [n mod 8] of the byte at index [n / 8];
    past the end of the storage the lookup yields the zero byte. *)
Lemma testbit_le_value s n :
  0 <= n ->
  Z.testbit (le_value s) n
    = Z.testbit (byte_value (s !!! Z.to_nat (n / 8))) (n mod 8).
Proof.
  revert n. induction s as [|b s IH]; intros n Hn.
  - cbn [le_value]. rewrite Z.testbit_0_l.
    rewrite list_lookup_total_alt. cbn. symmetry. apply Z.testbit_0_l.
  - cbn [le_value]. rewrite testbit_add_byte by (apply byte_value_range || lia).
    destruct (Z.ltb_spec n 8) as [Hlt | Hge].
    + replace (n / 8) with 0 by dlia. replace (n mod 8) with n by dlia.
      reflexivity.
    + rewrite IH by lia.
      replace (Z.to_nat (n / 8)) with (S (Z.to_nat ((n - 8) / 8)))
        by (assert (n / 8 = (n - 8) / 8 + 1) by dlia;
            assert (0 <= (n - 8) / 8) by dlia; lia).
      replace ((n - 8) mod 8) with (n mod 8) by dlia.
      reflexivity.
Qed.

Lemma lookup_total_reverse (s : list Byte.byte) (i : nat) :
  (i < length s)%nat -> reverse s !!! i = s !!! (length s - S i)%nat.
Proof.
  intros Hi. rewrite !list_lookup_total_alt, reverse_lookup by exact Hi.
  reflexivity.
Qed.

Lemma lookup_total_beyond (s : list Byte.byte) (i : nat) :
  (length s <= i)%nat -> s !!! i = Byte.x00.
Proof.
  intros Hi. rewrite list_lookup_total_alt, lookup_ge_None_2 by exact Hi.
  reflexivity.
Qed.

(** Reading the same storage from the other end reverses the bytes of
    the value. *)
Lemma be_value_reverses w s :
  length s = Z.to_nat w -> 0 < w -> reverses w (be_value s) (le_value s).
Proof.
  intros Hlen Hw n Hn. unfold be_value.
  rewrite testbit_le_value by lia.
  destruct (Z.ltb_spec n (8 * w)) as [Hlt | Hge]; cbn [andb].
  - unfold mirror. rewrite testbit_le_value by dlia.
    rewrite lookup_total_reverse by (rewrite Hlen; dlia).
    replace ((n + 8 * (w - 1) - 16 * (n / 8)) mod 8) with (n mod 8) by dlia.
    replace (Z.to_nat ((n + 8 * (w - 1) - 16 * (n / 8)) / 8))
      with (length s - S (Z.to_nat (n / 8)))%nat; [reflexivity|].
    rewrite Hlen.
    assert ((n + 8 * (w - 1) - 16 * (n / 8)) / 8 = w - 1 - n / 8) by dlia.
    assert (0 <= n / 8 < w) by dlia. lia.
  - rewrite lookup_total_beyond
      by (rewrite length_reverse, Hlen; assert (w <= n / 8) by dlia; lia).
    apply Z.testbit_0_l.
Qed.

Lemma le_value_reverse_be s : le_value s = be_value (reverse s).
Proof. unfold be_value. rewrite reverse_involutive. reflexivity. Qed.

Lemma byte_at_range x i : 0 <= byte_at x i < 256.
Proof.
  unfold byte_at. change 0xFF with (Z.ones 8).
  rewrite Z.land_ones by lia. change (2 ^ 8) with 256.
  apply Z.mod_pos_bound. lia.
Qed.

Lemma byte_top_bit b : 0 <= b < 256 -> (Z.testbit b 7 = true <-> 128 <= b).
Proof.
  intros Hb. rewrite Z.testbit_true by lia. change (2 ^ 7) with 128. dlia.
Qed.

Lemma to_signed_lor w a b :
  0 < w -> to_signed w (Z.lor a b) = Z.lor (to_signed w a) (to_signed w b).
Proof.
  intros Hw. apply Z.bits_inj'. intros n Hn.
  rewrite Z.lor_spec, !testbit_to_signed, Z.lor_spec by lia. reflexivity.
Qed.

Lemma to_signed_land w a b :
  0 < w -> to_signed w (Z.land a b) = Z.land (to_signed w a) (to_signed w b).
Proof.
  intros Hw. apply Z.bits_inj'. intros n Hn.
  rewrite Z.land_spec, !testbit_to_signed, Z.land_spec by lia. reflexivity.
Qed.

Lemma to_signed_lxor w a b :
  0 < w -> to_signed w (Z.lxor a b) = Z.lxor (to_signed w a) (to_signed w b).
Proof.
  intros Hw. apply Z.bits_inj'. intros n Hn.
  rewrite Z.lxor_spec, !testbit_to_signed, Z.lxor_spec by lia. reflexivity.
Qed.

(** ** More about a pair of specializations *)

Section SwapPairUse.

Variables w bits : Z.
Variables f g : Z -> Z.
Hypothesis pair : swap_pair w bits f g.

Lemma swap_le_value s : length s = Z.to_nat w -> f (le_value s) = be_value s.
Proof.
  intros Hlen.
  apply (reverses_unique w _ _ (le_value s));
    [apply (pair_reverses _ _ _ _ pair) | apply be_value_reverses];
    [exact Hlen | apply (pair_pos _ _ _ _ pair)].
Qed.

Lemma swap_be_value s : length s = Z.to_nat w -> f (be_value s) = le_value s.
Proof.
  intros Hlen. unfold be_value.
  rewrite swap_le_value by (rewrite length_reverse; exact Hlen).
  symmetry. apply le_value_reverse_be.
Qed.

Lemma be_value_range s : length s = Z.to_nat w -> unsigned_range bits (be_value s).
Proof.
  intros Hlen. rewrite <- swap_le_value by exact Hlen.
  apply (swap_unsigned_range _ _ _ _ pair).
Qed.

Lemma le_value_range s : length s = Z.to_nat w -> unsigned_range bits (le_value s).
Proof.
  intros Hlen. rewrite le_value_reverse_be. apply be_value_range.
  rewrite length_reverse. exact Hlen.
Qed.

Lemma swap_signed_of_pattern u : g (to_signed bits u) = to_signed bits (f u).
Proof.
  rewrite (pair_signed _ _ _ _ pair). f_equal.
  apply (swap_low_bits _ _ _ _ pair).
  apply to_signed_mod, (pair_bits_pos _ _ _ _ pair).
Qed.

Lemma swap_unsigned_morphism : bitwise_morphism f.
Proof.
  intros x y. pose proof (pair_reverses _ _ _ _ pair) as R.
  split; [|split]; apply Z.bits_inj'; intros n Hn.
  - rewrite Z.lor_spec, !R, Z.lor_spec by lia.
    destruct (n <? 8 * w); reflexivity.
  - rewrite Z.land_spec, !R, Z.land_spec by lia.
    destruct (n <? 8 * w); [reflexivity|].
    cbn [andb]. reflexivity.
  - rewrite Z.lxor_spec, !R, Z.lxor_spec by lia.
    destruct (n <? 8 * w); reflexivity.
Qed.

Lemma swap_signed_morphism : bitwise_morphism g.
Proof.
  intros x y. pose proof (pair_bits_pos _ _ _ _ pair) as Hb.
  destruct (swap_unsigned_morphism x y) as (Hor & Hand & Hxor).
  rewrite !(pair_signed _ _ _ _ pair), Hor, Hand, Hxor.
  rewrite to_signed_lor, to_signed_land, to_signed_lxor by exact Hb.
  repeat split; reflexivity.
Qed.

(** On a pattern whose bytes read the same from both ends the swap keeps
    the low [bits] bits. *)
Lemma swap_palindrome x : palindrome w x -> f x = to_unsigned bits x.
Proof.
  intros Hp. pose proof (pair_pos _ _ _ _ pair) as Hw.
  rewrite (pair_bits _ _ _ _ pair).
  apply Z.bits_inj'. intros n Hn. unfold to_unsigned.
  rewrite (pair_reverses _ _ _ _ pair), Z.testbit_mod_pow2 by lia.
  destruct (Z.ltb_spec n (8 * w)) as [Hlt | Hge]; [|reflexivity].
  cbn [andb].
  assert (Hi : 0 <= n / 8 < w) by dlia.
  assert (Hbit : Z.testbit (byte_at x (n / 8)) (n mod 8)
                 = Z.testbit (byte_at x (w - 1 - n / 8)) (n mod 8))
    by (rewrite (Hp (n / 8) Hi); reflexivity).
  rewrite !testbit_byte_at in Hbit by lia.
  rewrite (proj2 (Z.leb_le 0 (n mod 8))) in Hbit by dlia.
  rewrite (proj2 (Z.ltb_lt (n mod 8) 8)) in Hbit by dlia.
  rewrite !andb_true_r in Hbit.
  replace (n mod 8 + 8 * (n / 8)) with n in Hbit by dlia.
  unfold mirror.
  replace (n + 8 * (w - 1) - 16 * (n / 8))
    with (n mod 8 + 8 * (w - 1 - n / 8)) by dlia.
  symmetry. exact Hbit.
Qed.

Lemma fixed_point_palindrome x swap :
  (forall i, 0 <= i < w -> byte_at (swap x) (w - 1 - i) = byte_at x i) ->
  swap x = x -> palindrome w x.
Proof.
  intros Hbytes Hfix i Hi. rewrite <- (Hbytes i Hi), Hfix. reflexivity.
Qed.

Lemma swap_unsigned_fixed_point x :
  unsigned_range bits x -> (f x = x <-> palindrome w x).
Proof.
  intros Hx. split.
  - apply fixed_point_palindrome. intros i.
    apply (swap_unsigned_byte_at _ _ _ _ pair).
  - intros Hp. rewrite swap_palindrome by exact Hp.
    apply to_unsigned_id, Hx.
Qed.

Lemma swap_signed_fixed_point x :
  signed_range bits x -> (g x = x <-> palindrome w x).
Proof.
  intros Hx. pose proof (pair_bits_pos _ _ _ _ pair) as Hb. split.
  - apply fixed_point_palindrome. intros i.
    apply (swap_signed_byte_at _ _ _ _ pair).
  - intros Hp. rewrite (pair_signed _ _ _ _ pair), swap_palindrome by exact Hp.
    rewrite to_signed_to_unsigned. apply to_signed_id; assumption.
Qed.

(** The sign of the signed result is the top bit of the lowest byte. *)
Lemma swap_signed_sign x : g x < 0 <-> 128 <= byte_at x 0.
Proof.
  pose proof (pair_pos _ _ _ _ pair) as Hw.
  pose proof (pair_bits_pos _ _ _ _ pair) as Hb.
  pose proof (pair_bits _ _ _ _ pair) as Hbits.
  rewrite <- (byte_top_bit _ (byte_at_range x 0)).
  rewrite testbit_byte_at by lia. cbn [Z.leb Z.ltb Z.compare andb].
  rewrite andb_true_r. replace (7 + 8 * 0) with 7 by lia.
  rewrite <- Z.ltb_lt.
  rewrite <- (testbit_sign bits Hb (g x) (bits - 1)
                (swap_signed_range _ _ _ _ pair x)) by lia.
  rewrite (pair_signed _ _ _ _ pair), testbit_to_signed by lia.
  rewrite Z.min_id, (pair_reverses _ _ _ _ pair) by lia.
  rewrite (proj2 (Z.ltb_lt (bits - 1) (8 * w))) by lia.
  cbn [andb]. unfold mirror.
  replace (bits - 1 + 8 * (w - 1) - 16 * ((bits - 1) / 8)) with 7 by dlia.
  reflexivity.
Qed.

End SwapPairUse.

(** ** A wider swap from two narrower ones *)

(** Replace the quotients by 8 that the position of the bit determines. *)
Ltac settle_div :=
  repeat match goal with
  | |- context [?a / 8] =>
      first [ replace (a / 8) with 0 by dlia
            | replace (a / 8) with 1 by dlia
            | replace (a / 8) with 2 by dlia
            | replace (a / 8) with 3 by dlia ]
  end.

Ltac halves_blast n :=
  pick_byte n; decide_cmp; bool_simpl; try reflexivity;
  unfold mirror; settle_div; push_testbit; decide_cmp; bool_simpl; same_bit.

Lemma swap_bytes_uint32_halves x :
  swap_bytes_uint32 x
    = Z.lor (Z.shiftl (swap_bytes_uint16 (Z.land x 0xFFFF)) 16)
            (swap_bytes_uint16 (Z.shiftr x 16)).
Proof.
  apply Z.bits_inj'. intros n Hn.
  rewrite (swap_bytes_uint32_reverses x n Hn), Z.lor_spec, Z.shiftl_spec by lia.
  rewrite (swap_bytes_uint16_reverses _ n Hn).
  destruct (Z.lt_ge_cases n 16) as [Hlow | Hhigh].
  - rewrite (Z.testbit_neg_r _ (n - 16)) by lia. halves_blast n.
  - rewrite (swap_bytes_uint16_reverses _ (n - 16)) by lia. halves_blast n.
Qed.

Lemma swap_bytes_uint64_halves x :
  swap_bytes_uint64 x
    = Z.lor (Z.shiftl (swap_bytes_uint32 (Z.land x 0xFFFFFFFF)) 32)
            (swap_bytes_uint32 (Z.shiftr x 32)).
Proof.
  apply Z.bits_inj'. intros n Hn.
  rewrite (swap_bytes_uint64_reverses x n Hn), Z.lor_spec, Z.shiftl_spec by lia.
  rewrite (swap_bytes_uint32_reverses _ n Hn).
  change 0xFFFFFFFF with (Z.ones 32).
  destruct (Z.lt_ge_cases n 32) as [Hlow | Hhigh].
  - rewrite (Z.testbit_neg_r _ (n - 32)) by lia. halves_blast n.
  - rewrite (swap_bytes_uint32_reverses _ (n - 32)) by lia.
    rewrite Z.land_ones by lia. halves_blast n.
Qed.

(** * Further properties, stated *)

(** X1. [swap_bytes] permutes the values of each type that the build
    passes unchanged (every value of an integer type; a floating point
    value when the moves keep the bits or no signalling NaN is involved):
    two different such values never swap to the same result, and every
    such value is the swap of another. *)
Theorem swap_bytes_permutation (T : ctype) :
  (forall x y : repr T,
     valid T x -> valid T y ->
     float_moves_keep T x -> float_moves_keep T y ->
     swap_bytes T x = swap_bytes T y -> x = y) /\
  (forall y : repr T, valid T y -> float_moves_keep T y ->
     exists x, valid T x /\ float_moves_keep T x /\ swap_bytes T x = y).
Proof.
  split.
  - intros x y Hx Hy Kx Ky H.
    rewrite <- (swap_bytes_twice T x Hx Kx), H.
    apply swap_bytes_twice; assumption.
  - intros y Hy Ky. exists (swap_bytes T y).
    split; [apply swap_bytes_valid, Hy|].
    split; [apply float_moves_keep_swap | apply swap_bytes_twice]; assumption.
Qed.

(** X2. The values an integer specialization leaves unchanged are exactly
    those whose bytes read the same from both ends (byte [i] equals byte
    [w - 1 - i]). *)
Theorem swap_bytes_fixed_points :
  (forall x, valid uint16 x ->
     (swap_bytes uint16 x = x <-> palindrome (sizeof uint16) x)) /\
  (forall x, valid sint16 x ->
     (swap_bytes sint16 x = x <-> palindrome (sizeof sint16) x)) /\
  (forall x, valid uint32 x ->
     (swap_bytes uint32 x = x <-> palindrome (sizeof uint32) x)) /\
  (forall x, valid sint32 x ->
     (swap_bytes sint32 x = x <-> palindrome (sizeof sint32) x)) /\
  (forall x, valid uint64 x ->
     (swap_bytes uint64 x = x <-> palindrome (sizeof uint64) x)) /\
  (forall x, valid sint64 x ->
     (swap_bytes sint64 x = x <-> palindrome (sizeof sint64) x)).
Proof.
  cbn [swap_bytes valid sizeof].
  split; [exact (swap_unsigned_fixed_point _ _ _ _ pair16)|].
  split; [exact (swap_signed_fixed_point _ _ _ _ pair16)|].
  split; [exact (swap_unsigned_fixed_point _ _ _ _ pair32)|].
  split; [exact (swap_signed_fixed_point _ _ _ _ pair32)|].
  split; [exact (swap_unsigned_fixed_point _ _ _ _ pair64)
         | exact (swap_signed_fixed_point _ _ _ _ pair64)].
Qed.

(** X3. Every integer specialization commutes with the bitwise
    operations: the swap of [x | y], [x & y] and [x ^ y] is the same
    operation on the swaps of [x] and [y]. *)
Theorem swap_bytes_bitwise :
  bitwise_morphism (swap_bytes uint16) /\
  bitwise_morphism (swap_bytes sint16) /\
  bitwise_morphism (swap_bytes uint32) /\
  bitwise_morphism (swap_bytes sint32) /\
  bitwise_morphism (swap_bytes uint64) /\
  bitwise_morphism (swap_bytes sint64).
Proof.
  cbn [swap_bytes].
  split; [exact (swap_unsigned_morphism _ _ _ _ pair16)|].
  split; [exact (swap_signed_morphism _ _ _ _ pair16)|].
  split; [exact (swap_unsigned_morphism _ _ _ _ pair32)|].
  split; [exact (swap_signed_morphism _ _ _ _ pair32)|].
  split; [exact (swap_unsigned_morphism _ _ _ _ pair64)
         | exact (swap_signed_morphism _ _ _ _ pair64)].
Qed.

(** X4. A wider swap is two narrower ones with the halves exchanged: for
    a [uint32] [x], both [(uint16) x] and [(uint16) (x >> 16)] are
    [uint16] values and [swap_bytes x] is the swap of the low half shifted
    into the high half, or'ed with the swap of the high half; likewise
    for [uint64] and its [uint32] halves. *)
Theorem swap_bytes_by_halves :
  (forall x, valid uint32 x ->
     valid uint16 (Z.land x 0xFFFF) /\
     valid uint16 (Z.shiftr x 16) /\
     swap_bytes uint32 x
       = Z.lor (Z.shiftl (swap_bytes uint16 (Z.land x 0xFFFF)) 16)
               (swap_bytes uint16 (Z.shiftr x 16))) /\
  (forall x, valid uint64 x ->
     valid uint32 (Z.land x 0xFFFFFFFF) /\
     valid uint32 (Z.shiftr x 32) /\
     swap_bytes uint64 x
       = Z.lor (Z.shiftl (swap_bytes uint32 (Z.land x 0xFFFFFFFF)) 32)
               (swap_bytes uint32 (Z.shiftr x 32))).
Proof.
  cbn [swap_bytes valid]. unfold unsigned_range. split; intros x Hx.
  - split; [|split; [|apply swap_bytes_uint32_halves]].
    + change 0xFFFF with (Z.ones 16). rewrite Z.land_ones by lia.
      apply Z.mod_pos_bound. lia.
    + rewrite Z.shiftr_div_pow2 by lia. dlia.
  - split; [|split; [|apply swap_bytes_uint64_halves]].
    + change 0xFFFFFFFF with (Z.ones 32). rewrite Z.land_ones by lia.
      apply Z.mod_pos_bound. lia.
    + rewrite Z.shiftr_div_pow2 by lia. dlia.
Qed.

(** X5. A floating point specialization reverses the storage between two
    moves of the value: on every build the result is the move of the
    reversed bytes of the moved argument, and where the moves keep the bits
    or no signalling NaN is involved it is exactly the bytes of the
    argument in the opposite order. *)
Theorem swap_bytes_float_reverse :
  (forall f, valid float32 f ->
     swap_bytes float32 f
       = float_move fu 23 8 (reverse (float_move fu 23 8 f)) /\
     (float_moves_keep float32 f -> swap_bytes float32 f = reverse f)) /\
  (forall f, valid float64 f ->
     swap_bytes float64 f
       = float_move fu 52 11 (reverse (float_move fu 52 11 f)) /\
     (float_moves_keep float64 f -> swap_bytes float64 f = reverse f)).
Proof.
  cbn [swap_bytes valid]. split; intros f H; split.
  - apply swap_bytes_float32_moves, H.
  - apply swap_bytes_float32_reverse, H.
  - apply swap_bytes_float64_moves, H.
  - apply swap_bytes_float64_reverse, H.
Qed.

(** X6. An unsigned swap turns the little endian reading of a storage
    into its big endian reading and back: for every storage [s] of 2, 4 or
    8 bytes, [le_value s] and [be_value s] are values of the unsigned type
    of that size, and each is [swap_bytes] of the other. *)
Theorem swap_bytes_endian_readings :
  (forall s, length s = 2%nat ->
     valid uint16 (le_value s) /\ valid uint16 (be_value s) /\
     swap_bytes uint16 (le_value s) = be_value s /\
     swap_bytes uint16 (be_value s) = le_value s) /\
  (forall s, length s = 4%nat ->
     valid uint32 (le_value s) /\ valid uint32 (be_value s) /\
     swap_bytes uint32 (le_value s) = be_value s /\
     swap_bytes uint32 (be_value s) = le_value s) /\
  (forall s, length s = 8%nat ->
     valid uint64 (le_value s) /\ valid uint64 (be_value s) /\
     swap_bytes uint64 (le_value s) = be_value s /\
     swap_bytes uint64 (be_value s) = le_value s).
Proof.
  cbn [swap_bytes valid]. split; [|split]; intros s Hlen.
  - split; [apply (le_value_range _ _ _ _ pair16), Hlen|].
    split; [apply (be_value_range _ _ _ _ pair16), Hlen|].
    split; [apply (swap_le_value _ _ _ _ pair16), Hlen
           | apply (swap_be_value _ _ _ _ pair16), Hlen].
  - split; [apply (le_value_range _ _ _ _ pair32), Hlen|].
    split; [apply (be_value_range _ _ _ _ pair32), Hlen|].
    split; [apply (swap_le_value _ _ _ _ pair32), Hlen
           | apply (swap_be_value _ _ _ _ pair32), Hlen].
  - split; [apply (le_value_range _ _ _ _ pair64), Hlen|].
    split; [apply (be_value_range _ _ _ _ pair64), Hlen|].
    split; [apply (swap_le_value _ _ _ _ pair64), Hlen
           | apply (swap_be_value _ _ _ _ pair64), Hlen].
Qed.

(** X7. Where the build passes the value unchanged (its moves keep the
    bits, or no signalling NaN is involved), a floating point
    specialization does to the bit pattern what the unsigned
    specialization of the same size does: whether the host reads the
    storage little or big endian, the pattern of the swapped [float32] is
    [swap_bytes< uint32 >] of the pattern of the original, and the same
    for [float64] and [uint64]. *)
Theorem swap_bytes_float_as_unsigned :
  (forall f, valid float32 f -> float_moves_keep float32 f ->
     le_value (swap_bytes float32 f) = swap_bytes uint32 (le_value f) /\
     be_value (swap_bytes float32 f) = swap_bytes uint32 (be_value f)) /\
  (forall f, valid float64 f -> float_moves_keep float64 f ->
     le_value (swap_bytes float64 f) = swap_bytes uint64 (le_value f) /\
     be_value (swap_bytes float64 f) = swap_bytes uint64 (be_value f)).
Proof.
  cbn [swap_bytes valid]. split; intros f Hlen K.
  - rewrite swap_bytes_float32_reverse by assumption.
    rewrite (swap_le_value _ _ _ _ pair32) by exact Hlen.
    rewrite (swap_be_value _ _ _ _ pair32) by exact Hlen.
    split; [reflexivity | symmetry; apply le_value_reverse_be].
  - rewrite swap_bytes_float64_reverse by assumption.
    rewrite (swap_le_value _ _ _ _ pair64) by exact Hlen.
    rewrite (swap_be_value _ _ _ _ pair64) by exact Hlen.
    split; [reflexivity | symmetry; apply le_value_reverse_be].
Qed.

Lemma big_endian_wire_unsigned LITTLE_ENDIAN BIG_ENDIAN w bits f g :
  swap_pair w bits f g -> LITTLE_ENDIAN <> BIG_ENDIAN ->
  forall m : list Byte.byte, length m = Z.to_nat w ->
    (if LITTLE_ENDIAN =? LITTLE_ENDIAN then f (be_value m) else be_value m)
      = le_value m /\
    (if BIG_ENDIAN =? LITTLE_ENDIAN then f (be_value m) else be_value m)
      = be_value m /\
    (if LITTLE_ENDIAN =? LITTLE_ENDIAN then f (le_value m) else le_value m)
      = be_value m /\
    (if BIG_ENDIAN =? LITTLE_ENDIAN then f (be_value m) else be_value m)
      = be_value m.
Proof.
  intros P Hne m Hlen.
  rewrite Z.eqb_refl, (proj2 (Z.eqb_neq BIG_ENDIAN LITTLE_ENDIAN)) by congruence.
  rewrite (swap_be_value _ _ _ _ P), (swap_le_value _ _ _ _ P) by exact Hlen.
  repeat split; reflexivity.
Qed.

Lemma big_endian_wire_signed LITTLE_ENDIAN BIG_ENDIAN w bits f g :
  swap_pair w bits f g -> LITTLE_ENDIAN <> BIG_ENDIAN ->
  forall m : list Byte.byte, length m = Z.to_nat w ->
    (if LITTLE_ENDIAN =? LITTLE_ENDIAN
     then g (to_signed bits (be_value m)) else to_signed bits (be_value m))
      = to_signed bits (le_value m) /\
    (if BIG_ENDIAN =? LITTLE_ENDIAN
     then g (to_signed bits (be_value m)) else to_signed bits (be_value m))
      = to_signed bits (be_value m) /\
    (if LITTLE_ENDIAN =? LITTLE_ENDIAN
     then g (to_signed bits (le_value m)) else to_signed bits (le_value m))
      = to_signed bits (be_value m) /\
    (if BIG_ENDIAN =? LITTLE_ENDIAN
     then g (to_signed bits (be_value m)) else to_signed bits (be_value m))
      = to_signed bits (be_value m).
Proof.
  intros P Hne m Hlen.
  rewrite Z.eqb_refl, (proj2 (Z.eqb_neq BIG_ENDIAN LITTLE_ENDIAN)) by congruence.
  rewrite !(swap_signed_of_pattern _ _ _ _ P).
  rewrite (swap_be_value _ _ _ _ P), (swap_le_value _ _ _ _ P) by exact Hlen.
  repeat split; reflexivity.
Qed.

(** X8. The wire is big endian on every host: for each multi-byte integer
    type and any bytes [m] of its size, most significant first,
    [to_network] of the value [m] spells is the value whose storage on
    the host is [m] (read little endian on a little endian host, big
    endian on a big endian one), and [from_network] of what the host
    reads from [m] is the value [m] spells; so a value encoded on one
    host is decoded to the same value on the other. *)
Theorem network_big_endian_wire (LITTLE_ENDIAN BIG_ENDIAN : Z) :
  LITTLE_ENDIAN <> BIG_ENDIAN ->
  big_endian_wire LITTLE_ENDIAN BIG_ENDIAN uint16 (fun p => p) /\
  big_endian_wire LITTLE_ENDIAN BIG_ENDIAN sint16 to_sint16 /\
  big_endian_wire LITTLE_ENDIAN BIG_ENDIAN uint32 (fun p => p) /\
  big_endian_wire LITTLE_ENDIAN BIG_ENDIAN sint32 to_sint32 /\
  big_endian_wire LITTLE_ENDIAN BIG_ENDIAN uint64 (fun p => p) /\
  big_endian_wire LITTLE_ENDIAN BIG_ENDIAN sint64 to_sint64.
Proof.
  intros Hne.
  unfold big_endian_wire, to_network, from_network,
    to_sint16, to_sint32, to_sint64.
  cbn [swap_bytes sizeof].
  split; [exact (big_endian_wire_unsigned _ _ _ _ _ _ pair16 Hne)|].
  split; [exact (big_endian_wire_signed _ _ _ _ _ _ pair16 Hne)|].
  split; [exact (big_endian_wire_unsigned _ _ _ _ _ _ pair32 Hne)|].
  split; [exact (big_endian_wire_signed _ _ _ _ _ _ pair32 Hne)|].
  split; [exact (big_endian_wire_unsigned _ _ _ _ _ _ pair64 Hne)
         | exact (big_endian_wire_signed _ _ _ _ _ _ pair64 Hne)].
Qed.

(** X9. The sign of a swapped signed value is the top bit of the lowest
    byte of the input, whatever the sign of the input: the result is
    negative exactly when that byte is [0x80] or more. *)
Theorem swap_bytes_signed_sign :
  (forall x, valid sint16 x -> (swap_bytes sint16 x < 0 <-> 128 <= byte_at x 0)) /\
  (forall x, valid sint32 x -> (swap_bytes sint32 x < 0 <-> 128 <= byte_at x 0)) /\
  (forall x, valid sint64 x -> (swap_bytes sint64 x < 0 <-> 128 <= byte_at x 0)).
Proof.
  cbn [swap_bytes]. split; [|split]; intros x _.
  - apply (swap_signed_sign _ _ _ _ pair16).
  - apply (swap_signed_sign _ _ _ _ pair32).
  - apply (swap_signed_sign _ _ _ _ pair64).
Qed.

(** X10. Where the build passes the value unchanged (its moves keep the
    bits, or no signalling NaN is involved), floating point values cross
    hosts with their bit pattern: for a [float32] or [float64] storage
    [s], the bytes [to_network] yields spell, most significant first, the
    pattern the host reads from [s], and the storage [from_network] yields
    holds, as the host reads it, the pattern the received bytes spell;
    this on a little endian host (which reads [le_value]) and on a big
    endian one (which reads [be_value]). *)
Theorem network_float_pattern (LITTLE_ENDIAN BIG_ENDIAN : Z) :
  LITTLE_ENDIAN <> BIG_ENDIAN ->
  (forall s, valid float32 s -> float_moves_keep float32 s ->
     be_value (to_network LITTLE_ENDIAN LITTLE_ENDIAN float32 s) = le_value s /\
     be_value (to_network LITTLE_ENDIAN BIG_ENDIAN float32 s) = be_value s /\
     le_value (from_network LITTLE_ENDIAN LITTLE_ENDIAN float32 s) = be_value s /\
     be_value (from_network LITTLE_ENDIAN BIG_ENDIAN float32 s) = be_value s) /\
  (forall s, valid float64 s -> float_moves_keep float64 s ->
     be_value (to_network LITTLE_ENDIAN LITTLE_ENDIAN float64 s) = le_value s /\
     be_value (to_network LITTLE_ENDIAN BIG_ENDIAN float64 s) = be_value s /\
     le_value (from_network LITTLE_ENDIAN LITTLE_ENDIAN float64 s) = be_value s /\
     be_value (from_network LITTLE_ENDIAN BIG_ENDIAN float64 s) = be_value s).
Proof.
  intros Hne. unfold to_network, from_network.
  rewrite Z.eqb_refl, (proj2 (Z.eqb_neq BIG_ENDIAN LITTLE_ENDIAN)) by congruence.
  cbn [swap_bytes valid]. split; intros s Hlen K.
  - rewrite swap_bytes_float32_reverse by assumption.
    rewrite <- le_value_reverse_be. repeat split; reflexivity.
  - rewrite swap_bytes_float64_reverse by assumption.
    rewrite <- le_value_reverse_be. repeat split; reflexivity.
Qed.

(** X11. Swapping twice gives back the value wherever the build passes
    it unchanged: for every value of every integer type on every build,
    and for every [float32] and [float64] value when the moves keep the
    bits or neither the value nor its byte reversal is a signalling NaN. *)
Theorem swap_bytes_involution_kept (T : ctype) (x : repr T) :
  valid T x -> float_moves_keep T x -> swap_bytes T (swap_bytes T x) = x.
Proof. apply swap_bytes_twice. Qed.

(** X12. Decoding after encoding gives back the value wherever the build
    passes it unchanged, whatever [BYTE_ORDER] is: for every value of
    every integer type on every build, and for every floating point value
    when the moves keep the bits or no signalling NaN is involved. *)
Theorem network_round_trip_kept
    (LITTLE_ENDIAN BYTE_ORDER : Z) (T : ctype) (x : repr T) :
  valid T x -> float_moves_keep T x ->
  from_network LITTLE_ENDIAN BYTE_ORDER T
    (to_network LITTLE_ENDIAN BYTE_ORDER T x) = x.
Proof. apply network_twice. Qed.

End Build.

(** * The properties at concrete inputs *)

Lemma swap_bytes_byte_reversal_witness :
  valid sint32 (-2) /\ 0 <= 0 < sizeof sint32 /\
  byte_at (swap_bytes bit_preserving sint32 (-2)) (sizeof sint32 - 1 - 0)
    = byte_at (-2) 0.
Proof.
  assert (H : valid sint32 (-2)) by (cbn; unfold signed_range; lia).
  assert (Hi : 0 <= 0 < sizeof sint32) by (cbn; lia).
  split; [exact H | split; [exact Hi|]].
  destruct (swap_bytes_byte_reversal bit_preserving) as (_ & _ & _ & Hs32 & _).
  exact (proj2 (proj2 (Hs32 (-2) H)) 0 Hi).
Defined.

Lemma network_by_host_order_witness :
  1234 <> 4321 /\
  BYTE_ORDER_of 1234 (unix_host 4321) = 4321 /\
  to_network bit_preserving 1234 (BYTE_ORDER_of 1234 (unix_host 4321))
    uint16 0x1234 = 0x1234 /\
  BYTE_ORDER_of 1234 win32_host = 1234 /\
  to_network bit_preserving 1234 (BYTE_ORDER_of 1234 win32_host) uint16 0x1234
    = swap_bytes bit_preserving uint16 0x1234.
Proof.
  assert (Hne : 1234 <> 4321) by lia.
  assert (Hbig : BYTE_ORDER_of 1234 (unix_host 4321) = 4321) by reflexivity.
  assert (Hlittle : BYTE_ORDER_of 1234 win32_host = 1234) by reflexivity.
  split; [exact Hne | split; [exact Hbig | split; [| split; [exact Hlittle|]]]].
  - exact (proj1 (proj1
      (network_by_host_order bit_preserving 1234 4321 (unix_host 4321)
         uint16 0x1234 Hne) Hbig)).
  - exact (proj1 (proj2
      (network_by_host_order bit_preserving 1234 4321 win32_host
         uint16 0x1234 Hne) Hlittle)).
Defined.

Lemma swap_bytes_signed_pattern_witness :
  valid sint16 (-2) /\
  swap_bytes bit_preserving sint16 (-2)
    = to_sint16 (byte_reverse 2 (to_uint16 (-2))).
Proof.
  assert (H : valid sint16 (-2)) by (cbn; unfold signed_range; lia).
  split; [exact H
         | exact (proj1 (swap_bytes_signed_pattern bit_preserving) (-2) H)].
Defined.

Lemma swap_bytes_uint8_identity_witness :
  valid uint8 0xA5 /\ swap_bytes bit_preserving uint8 0xA5 = 0xA5.
Proof.
  assert (H : valid uint8 0xA5) by (cbn; unfold unsigned_range; lia).
  split; [exact H | exact (swap_bytes_uint8_identity bit_preserving 0xA5 H)].
Defined.

Lemma operations_total_witness :
  valid float32 [Byte.x7f; Byte.xa0; Byte.x00; Byte.x01] /\
  (exists y,
     swap_bytes_checked x87 float32 [Byte.x7f; Byte.xa0; Byte.x00; Byte.x01]
       = Some y /\
     y = swap_bytes x87 float32 [Byte.x7f; Byte.xa0; Byte.x00; Byte.x01] /\
     valid float32 y).
Proof.
  assert (H : valid float32 [Byte.x7f; Byte.xa0; Byte.x00; Byte.x01])
    by reflexivity.
  split; [exact H
         | exact (proj1 (operations_total x87 1234 1234 float32 _ H))].
Defined.

Lemma swap_bytes_signed_unsigned_agree_witness :
  valid uint16 0xFFFE /\
  to_uint16 (swap_bytes bit_preserving sint16 (to_sint16 0xFFFE))
    = swap_bytes bit_preserving uint16 0xFFFE.
Proof.
  assert (H : valid uint16 0xFFFE) by (cbn; unfold unsigned_range; lia).
  split; [exact H
         | exact (proj1 (swap_bytes_signed_unsigned_agree bit_preserving)
                    0xFFFE H)].
Defined.

Lemma swap_bytes_permutation_witness :
  valid float32 [Byte.x00; Byte.x00; Byte.x80; Byte.x3f] /\
  float_moves_keep x87 float32 [Byte.x00; Byte.x00; Byte.x80; Byte.x3f] /\
  exists x, valid float32 x /\ float_moves_keep x87 float32 x /\
            swap_bytes x87 float32 x = [Byte.x00; Byte.x00; Byte.x80; Byte.x3f].
Proof.
  assert (H : valid float32 [Byte.x00; Byte.x00; Byte.x80; Byte.x3f])
    by reflexivity.
  assert (K : float_moves_keep x87 float32 [Byte.x00; Byte.x00; Byte.x80; Byte.x3f])
    by (right; split; reflexivity).
  split; [exact H | split; [exact K|]].
  exact (proj2 (swap_bytes_permutation x87 float32) _ H K).
Defined.

Lemma swap_bytes_fixed_points_witness :
  valid uint32 0x12ABAB12 /\
  (swap_bytes bit_preserving uint32 0x12ABAB12 = 0x12ABAB12
   <-> palindrome (sizeof uint32) 0x12ABAB12).
Proof.
  assert (H : valid uint32 0x12ABAB12) by (cbn; unfold unsigned_range; lia).
  split; [exact H|].
  destruct (swap_bytes_fixed_points bit_preserving) as (_ & _ & H32 & _).
  exact (H32 0x12ABAB12 H).
Defined.

Lemma swap_bytes_by_halves_witness :
  valid uint32 0x12345678 /\
  swap_bytes bit_preserving uint32 0x12345678
    = Z.lor (Z.shiftl (swap_bytes bit_preserving uint16
                         (Z.land 0x12345678 0xFFFF)) 16)
            (swap_bytes bit_preserving uint16 (Z.shiftr 0x12345678 16)).
Proof.
  assert (H : valid uint32 0x12345678) by (cbn; unfold unsigned_range; lia).
  split; [exact H|].
  exact (proj2 (proj2
    (proj1 (swap_bytes_by_halves bit_preserving) 0x12345678 H))).
Defined.

Lemma swap_bytes_float_reverse_witness :
  valid float32 [Byte.x00; Byte.x00; Byte.x80; Byte.x3f] /\
  float_moves_keep x87 float32 [Byte.x00; Byte.x00; Byte.x80; Byte.x3f] /\
  swap_bytes x87 float32 [Byte.x00; Byte.x00; Byte.x80; Byte.x3f]
    = reverse [Byte.x00; Byte.x00; Byte.x80; Byte.x3f].
Proof.
  assert (H : valid float32 [Byte.x00; Byte.x00; Byte.x80; Byte.x3f])
    by reflexivity.
  assert (K : float_moves_keep x87 float32 [Byte.x00; Byte.x00; Byte.x80; Byte.x3f])
    by (right; split; reflexivity).
  split; [exact H | split; [exact K|]].
  exact (proj2 (proj1 (swap_bytes_float_reverse x87) _ H) K).
Defined.

Lemma swap_bytes_endian_readings_witness :
  length [Byte.x78; Byte.x56; Byte.x34; Byte.x12] = 4%nat /\
  swap_bytes bit_preserving uint32
    (le_value [Byte.x78; Byte.x56; Byte.x34; Byte.x12])
    = be_value [Byte.x78; Byte.x56; Byte.x34; Byte.x12].
Proof.
  assert (H : length [Byte.x78; Byte.x56; Byte.x34; Byte.x12] = 4%nat)
    by reflexivity.
  split; [exact H|].
  destruct (swap_bytes_endian_readings bit_preserving) as (_ & H32 & _).
  exact (proj1 (proj2 (proj2 (H32 _ H)))).
Defined.

Lemma swap_bytes_float_as_unsigned_witness :
  valid float32 [Byte.x01; Byte.x00; Byte.xc0; Byte.x7f] /\
  float_moves_keep x87 float32 [Byte.x01; Byte.x00; Byte.xc0; Byte.x7f] /\
  le_value (swap_bytes x87 float32 [Byte.x01; Byte.x00; Byte.xc0; Byte.x7f])
    = swap_bytes x87 uint32 (le_value [Byte.x01; Byte.x00; Byte.xc0; Byte.x7f]).
Proof.
  assert (H : valid float32 [Byte.x01; Byte.x00; Byte.xc0; Byte.x7f])
    by reflexivity.
  assert (K : float_moves_keep x87 float32 [Byte.x01; Byte.x00; Byte.xc0; Byte.x7f])
    by (right; split; reflexivity).
  split; [exact H | split; [exact K|]].
  exact (proj1 (proj1 (swap_bytes_float_as_unsigned x87) _ H K)).
Defined.

Lemma network_big_endian_wire_witness :
  1234 <> 4321 /\
  length [Byte.x12; Byte.x34] = Z.to_nat (sizeof uint16) /\
  from_network bit_preserving 1234 1234 uint16 (le_value [Byte.x12; Byte.x34])
    = be_value [Byte.x12; Byte.x34] /\
  from_network bit_preserving 1234 4321 uint16 (be_value [Byte.x12; Byte.x34])
    = be_value [Byte.x12; Byte.x34].
Proof.
  assert (Hne : 1234 <> 4321) by lia.
  assert (Hlen : length [Byte.x12; Byte.x34] = Z.to_nat (sizeof uint16))
    by reflexivity.
  split; [exact Hne | split; [exact Hlen|]].
  exact (proj2 (proj2
    (proj1 (network_big_endian_wire bit_preserving 1234 4321 Hne)
       [Byte.x12; Byte.x34] Hlen))).
Defined.

Lemma swap_bytes_signed_sign_witness :
  valid sint16 0x0180 /\
  (swap_bytes bit_preserving sint16 0x0180 < 0 <-> 128 <= byte_at 0x0180 0).
Proof.
  assert (H : valid sint16 0x0180) by (cbn; unfold signed_range; lia).
  split; [exact H
         | exact (proj1 (swap_bytes_signed_sign bit_preserving) 0x0180 H)].
Defined.

Lemma network_float_pattern_witness :
  1234 <> 4321 /\
  valid float32 [Byte.x00; Byte.x00; Byte.x80; Byte.xbf] /\
  float_moves_keep x87 float32 [Byte.x00; Byte.x00; Byte.x80; Byte.xbf] /\
  be_value (to_network x87 1234 1234 float32
              [Byte.x00; Byte.x00; Byte.x80; Byte.xbf])
    = le_value [Byte.x00; Byte.x00; Byte.x80; Byte.xbf].
Proof.
  assert (Hne : 1234 <> 4321) by lia.
  assert (H : valid float32 [Byte.x00; Byte.x00; Byte.x80; Byte.xbf])
    by reflexivity.
  assert (K : float_moves_keep x87 float32 [Byte.x00; Byte.x00; Byte.x80; Byte.xbf])
    by (right; split; reflexivity).
  split; [exact Hne | split; [exact H | split; [exact K|]]].
  exact (proj1 (proj1 (network_float_pattern x87 1234 4321 Hne) _ H K)).
Defined.

Lemma swap_bytes_involution_kept_witness :
  valid float32 [Byte.x00; Byte.x00; Byte.x80; Byte.xbf] /\
  float_moves_keep x87 float32 [Byte.x00; Byte.x00; Byte.x80; Byte.xbf] /\
  swap_bytes x87 float32
    (swap_bytes x87 float32 [Byte.x00; Byte.x00; Byte.x80; Byte.xbf])
    = [Byte.x00; Byte.x00; Byte.x80; Byte.xbf].
Proof.
  assert (H : valid float32 [Byte.x00; Byte.x00; Byte.x80; Byte.xbf])
    by reflexivity.
  assert (K : float_moves_keep x87 float32 [Byte.x00; Byte.x00; Byte.x80; Byte.xbf])
    by (right; split; reflexivity).
  split; [exact H | split; [exact K|]].
  exact (swap_bytes_involution_kept x87 float32 _ H K).
Defined.

Lemma network_round_trip_kept_witness :
  valid sint32 (-2) /\
  float_moves_keep x87 sint32 (-2) /\
  from_network x87 1234 1234 sint32 (to_network x87 1234 1234 sint32 (-2)) = -2.
Proof.
  assert (H : valid sint32 (-2)) by (cbn; unfold signed_range; lia).
  assert (K : float_moves_keep x87 sint32 (-2)) by (right; exact I).
  split; [exact H | split; [exact K|]].
  exact (network_round_trip_kept x87 1234 1234 sint32 (-2) H K).
Defined.

(** * What the x87 build does to a signalling NaN *)

(** C1. On a build that passes floating point values through the x87,
    swapping twice does not give back every [float32]: the storage
    [7f a0 00 01] is a finite number, its byte reversal [01 00 a0 7f] is
    a signalling NaN, which the first swap returns quieted as
    [01 00 e0 7f], and the second swap yields [7f e0 00 01]. *)
Theorem swap_bytes_twice_x87 :
  valid float32 [Byte.x7f; Byte.xa0; Byte.x00; Byte.x01] /\
  swap_bytes x87 float32 [Byte.x7f; Byte.xa0; Byte.x00; Byte.x01]
    = [Byte.x01; Byte.x00; Byte.xe0; Byte.x7f] /\
  swap_bytes x87 float32
    (swap_bytes x87 float32 [Byte.x7f; Byte.xa0; Byte.x00; Byte.x01])
    = [Byte.x7f; Byte.xe0; Byte.x00; Byte.x01] /\
  swap_bytes x87 float32
    (swap_bytes x87 float32 [Byte.x7f; Byte.xa0; Byte.x00; Byte.x01])
    <> [Byte.x7f; Byte.xa0; Byte.x00; Byte.x01].
Proof.
  split; [reflexivity|]. split; [vm_compute; reflexivity|].
  split; [vm_compute; reflexivity|].
  intros E. vm_compute in E. discriminate E.
Qed.

(** C3. On a little endian host that passes floating point values through
    the x87, decoding after encoding does not give back every [float64]:
    for the finite number stored as [7f f4 00 00 00 00 00 01],
    [to_network] returns [01 00 00 00 00 00 fc 7f], the quieted form of
    the reversed bytes, and [from_network] of that is
    [7f fc 00 00 00 00 00 01]. *)
Theorem from_network_to_network_x87 (LITTLE_ENDIAN : Z) :
  valid float64
    [Byte.x7f; Byte.xf4; Byte.x00; Byte.x00; Byte.x00; Byte.x00; Byte.x00; Byte.x01] /\
  to_network x87 LITTLE_ENDIAN LITTLE_ENDIAN float64
    [Byte.x7f; Byte.xf4; Byte.x00; Byte.x00; Byte.x00; Byte.x00; Byte.x00; Byte.x01]
    = [Byte.x01; Byte.x00; Byte.x00; Byte.x00; Byte.x00; Byte.x00; Byte.xfc; Byte.x7f] /\
  from_network x87 LITTLE_ENDIAN LITTLE_ENDIAN float64
    (to_network x87 LITTLE_ENDIAN LITTLE_ENDIAN float64
       [Byte.x7f; Byte.xf4; Byte.x00; Byte.x00; Byte.x00; Byte.x00; Byte.x00; Byte.x01])
    = [Byte.x7f; Byte.xfc; Byte.x00; Byte.x00; Byte.x00; Byte.x00; Byte.x00; Byte.x01] /\
  from_network x87 LITTLE_ENDIAN LITTLE_ENDIAN float64
    (to_network x87 LITTLE_ENDIAN LITTLE_ENDIAN float64
       [Byte.x7f; Byte.xf4; Byte.x00; Byte.x00; Byte.x00; Byte.x00; Byte.x00; Byte.x01])
    <> [Byte.x7f; Byte.xf4; Byte.x00; Byte.x00; Byte.x00; Byte.x00; Byte.x00; Byte.x01].
Proof.
  unfold from_network, to_network. rewrite Z.eqb_refl.
  split; [reflexivity|]. split; [vm_compute; reflexivity|].
  split; [vm_compute; reflexivity|].
  intros E. vm_compute in E. discriminate E.
Qed.

(** C6. On a build that passes floating point values through the x87 the
    round trip is not bit exact for NaN patterns: the signalling NaN
    stored as [01 00 a0 7f] comes back as the quiet NaN [01 00 e0 7f],
    and the 8-byte signalling NaN [01 00 00 00 00 00 f4 7f] as
    [01 00 00 00 00 00 fc 7f]. *)
Theorem swap_bytes_float_round_trip_x87 :
  swap_bytes x87 float32
    (swap_bytes x87 float32 [Byte.x01; Byte.x00; Byte.xa0; Byte.x7f])
    = [Byte.x01; Byte.x00; Byte.xe0; Byte.x7f] /\
  swap_bytes x87 float32
    (swap_bytes x87 float32 [Byte.x01; Byte.x00; Byte.xa0; Byte.x7f])
    <> [Byte.x01; Byte.x00; Byte.xa0; Byte.x7f] /\
  swap_bytes x87 float64
    (swap_bytes x87 float64
       [Byte.x01; Byte.x00; Byte.x00; Byte.x00; Byte.x00; Byte.x00; Byte.xf4; Byte.x7f])
    = [Byte.x01; Byte.x00; Byte.x00; Byte.x00; Byte.x00; Byte.x00; Byte.xfc; Byte.x7f] /\
  swap_bytes x87 float64
    (swap_bytes x87 float64
       [Byte.x01; Byte.x00; Byte.x00; Byte.x00; Byte.x00; Byte.x00; Byte.xf4; Byte.x7f])
    <> [Byte.x01; Byte.x00; Byte.x00; Byte.x00; Byte.x00; Byte.x00; Byte.xf4; Byte.x7f].
Proof.
  split; [vm_compute; reflexivity|].
  split; [intros E; vm_compute in E; discriminate E|].
  split; [vm_compute; reflexivity|].
  intros E. vm_compute in E. discriminate E.
Qed.
